(** * AICustomerService: the streaming chat client and its page state

    A shallow embedding of

    - [frontend/src/services/chatService.ts]  ([ChatService.sendMessageStream]),
    - [frontend/src/pages/ChatPage.tsx]       ([sendMessage] and its callbacks),

    together with the provider registry of the backend, which
    [frontend/src/components/ModelSelector.tsx] reaches through [modelAPI].

    Conventions.  A JavaScript string is a [string] holding the UTF-8 bytes of
    its text.  Callbacks and console output are recorded as a trace of
    [Event]s, in invocation order.  React state is an explicit record that
    every state setter transforms. *)

From Stdlib Require Import Ascii String NArith DecimalString.
From stdpp Require Import base list strings gmap.

(** ** JavaScript strings *)

Module JSString.

(** The double quote character, and a text between double quotes. *)
Definition dquote : ascii := "034".
Definition quoted (s : string) : string :=
  String dquote (s +:+ String dquote EmptyString).

Definition byte (c : ascii) : N := N_of_ascii c.

(** White space and line terminators of ECMAScript ([String.prototype.trim]),
    by the UTF-8 bytes of their code points. *)
Definition ws1 (c : ascii) : bool :=
  let n := byte c in
  (((9 <=? n) && (n <=? 13)) || (n =? 32))%N.

(** U+00A0 *)
Definition ws2 (c d : ascii) : bool :=
  ((byte c =? 194) && (byte d =? 160))%N.

(** U+1680, U+2000..U+200A, U+2028, U+2029, U+202F, U+205F, U+3000, U+FEFF *)
Definition ws3 (c d e : ascii) : bool :=
  let '(x, y, z) := (byte c, byte d, byte e) in
  (((x =? 225) && (y =? 154) && (z =? 128))
   || ((x =? 226) && (y =? 128)
       && (((128 <=? z) && (z <=? 138)) || (z =? 168) || (z =? 169) || (z =? 175)))
   || ((x =? 226) && (y =? 129) && (z =? 159))
   || ((x =? 227) && (y =? 128) && (z =? 128))
   || ((x =? 239) && (y =? 187) && (z =? 191)))%N.

(** Drops the white space a string starts with; [w2] and [w3] recognise the
    two- and three-byte code points in the order the bytes are met. *)
Fixpoint strip (w2 : ascii -> ascii -> bool) (w3 : ascii -> ascii -> ascii -> bool)
    (s : string) : string :=
  match s with
  | EmptyString => EmptyString
  | String c r =>
      if ws1 c then strip w2 w3 r
      else
        match r with
        | String d r1 =>
            if w2 c d then strip w2 w3 r1
            else
              match r1 with
              | String e r2 => if w3 c d e then strip w2 w3 r2 else s
              | EmptyString => s
              end
        | EmptyString => s
        end
  end.

Definition trimStart (s : string) : string := strip ws2 ws3 s.

Definition trimEnd (s : string) : string :=
  String.rev (strip (fun c d => ws2 d c) (fun c d e => ws3 e d c) (String.rev s)).

(** [s.trim()] *)
Definition trim (s : string) : string := trimEnd (trimStart s).

(** [s === ''] *)
Definition is_empty (s : string) : bool :=
  match s with EmptyString => true | String _ _ => false end.

(** [s.split('\n')]: the pieces between line feeds; never an empty list. *)
Fixpoint split_go (cur : string) (s : string) : list string :=
  match s with
  | EmptyString => [String.rev cur]
  | String c r =>
      if (byte c =? 10)%N then String.rev cur :: split_go EmptyString r
      else split_go (String c cur) r
  end.
Definition split_lines (s : string) : list string := split_go EmptyString s.

(** Decimal text of a number, as a template literal renders an integer. *)
Definition of_N (n : N) : string :=
  NilEmpty.string_of_uint (N.to_uint n).

End JSString.

(** ** JavaScript values and [JSON.parse] *)

#[local] Unset Elimination Schemes.

(** The values [JSON.parse] returns, and [undefined], which reading an absent
    property gives.  A number keeps the text it was written with. *)
Inductive JSValue : Type :=
| Undefined
| Null
| Bool (b : bool)
| Number (lexeme : string)
| Str (s : string)
| Array (items : list JSValue)
| Object (members : list (string * JSValue)).

#[local] Set Elimination Schemes.

Module JSON.
Import JSString.

(** JSON white space: space, tab, line feed, carriage return. *)
Definition is_ws (c : ascii) : bool :=
  let n := byte c in ((n =? 32) || (n =? 9) || (n =? 10) || (n =? 13))%N.

Fixpoint skip_ws (s : string) : string :=
  match s with
  | String c r => if is_ws c then skip_ws r else s
  | EmptyString => s
  end.

Definition is_digit (c : ascii) : bool :=
  let n := byte c in ((48 <=? n) && (n <=? 57))%N.

Definition hex_digit (c : ascii) : option N :=
  let n := byte c in
  if ((48 <=? n) && (n <=? 57))%N then Some (n - 48)%N
  else if ((65 <=? n) && (n <=? 70))%N then Some (n - 55)%N
  else if ((97 <=? n) && (n <=? 102))%N then Some (n - 87)%N
  else None.

Definition hex4 (a b c d : ascii) : option N :=
  match hex_digit a, hex_digit b, hex_digit c, hex_digit d with
  | Some x, Some y, Some z, Some w => Some (((x * 16 + y) * 16 + z) * 16 + w)%N
  | _, _, _, _ => None
  end.

Definition chr (n : N) : ascii := ascii_of_N n.

(** Pushes the UTF-8 bytes of a code point on a reversed text; a surrogate
    that stands alone is written like any three-byte code point. *)
Definition push_code_point (cp : N) (acc : string) : string :=
  if (cp <? 128)%N then String (chr cp) acc
  else if (cp <? 2048)%N then
    String (chr (128 + cp mod 64)) (String (chr (192 + cp / 64)) acc)
  else if (cp <? 65536)%N then
    String (chr (128 + cp mod 64))
      (String (chr (128 + (cp / 64) mod 64)) (String (chr (224 + cp / 4096)) acc))
  else
    String (chr (128 + cp mod 64))
      (String (chr (128 + (cp / 64) mod 64))
         (String (chr (128 + (cp / 4096) mod 64)) (String (chr (240 + cp / 262144)) acc))).

Definition is_high_surrogate (cu : N) : bool := ((55296 <=? cu) && (cu <=? 56319))%N.
Definition is_low_surrogate (cu : N) : bool := ((56320 <=? cu) && (cu <=? 57343))%N.

(** The characters of a string literal after its opening quote, up to the
    closing quote; [acc] is the text read so far, reversed. *)
Fixpoint parse_chars (s : string) (acc : string) : option (string * string) :=
  match s with
  | EmptyString => None
  | String c r =>
      if Ascii.eqb c dquote then Some (String.rev acc, r)
      else if Ascii.eqb c "\" then
        match r with
        | String e r1 =>
            if Ascii.eqb e dquote || Ascii.eqb e "\" || Ascii.eqb e "/"
            then parse_chars r1 (String e acc)
            else if Ascii.eqb e "b" then parse_chars r1 (String (chr 8) acc)
            else if Ascii.eqb e "f" then parse_chars r1 (String (chr 12) acc)
            else if Ascii.eqb e "n" then parse_chars r1 (String (chr 10) acc)
            else if Ascii.eqb e "r" then parse_chars r1 (String (chr 13) acc)
            else if Ascii.eqb e "t" then parse_chars r1 (String (chr 9) acc)
            else if Ascii.eqb e "u" then
              match r1 with
              | String h1 (String h2 (String h3 (String h4 r2))) =>
                  match hex4 h1 h2 h3 h4 with
                  | Some cu =>
                      match r2 with
                      | String b (String u (String l1 (String l2 (String l3 (String l4 r3))))) =>
                          match hex4 l1 l2 l3 l4 with
                          | Some lo =>
                              if Ascii.eqb b "\" && Ascii.eqb u "u"
                                 && is_high_surrogate cu && is_low_surrogate lo
                              then parse_chars r3
                                     (push_code_point
                                        (65536 + (cu - 55296) * 1024 + (lo - 56320))%N acc)
                              else parse_chars r2 (push_code_point cu acc)
                          | None => parse_chars r2 (push_code_point cu acc)
                          end
                      | _ => parse_chars r2 (push_code_point cu acc)
                      end
                  | None => None
                  end
              | _ => None
              end
            else None
        | EmptyString => None
        end
      else if (byte c <? 32)%N then None
      else parse_chars r (String c acc)
  end.

(** The longest run of digits a text starts with, pushed on [acc]. *)
Fixpoint digits (s : string) (acc : string) : string * string :=
  match s with
  | String c r => if is_digit c then digits r (String c acc) else (acc, s)
  | EmptyString => (acc, s)
  end.

Definition starts_with_digit (s : string) : bool :=
  match s with String c _ => is_digit c | EmptyString => false end.

(** A JSON number: an optional minus sign; a zero, or a digit from 1 to 9
    and more digits; optionally a dot and digits; optionally an exponent. *)
Definition parse_number (s : string) : option (string * string) :=
  let '(acc, s) :=
    match s with
    | String c r => if Ascii.eqb c "-" then (String c EmptyString, r) else (EmptyString, s)
    | EmptyString => (EmptyString, s)
    end in
  let int :=
    match s with
    | String c r =>
        if Ascii.eqb c "0" then Some (String c acc, r)
        else if is_digit c then Some (digits r (String c acc))
        else None
    | EmptyString => None
    end in
  match int with
  | None => None
  | Some (acc, s) =>
      let frac :=
        match s with
        | String c r =>
            if Ascii.eqb c "." then
              if starts_with_digit r then Some (digits r (String c acc)) else None
            else Some (acc, s)
        | EmptyString => Some (acc, s)
        end in
      match frac with
      | None => None
      | Some (acc, s) =>
          match s with
          | String c r =>
              if Ascii.eqb c "e" || Ascii.eqb c "E" then
                let '(acc1, r1) :=
                  match r with
                  | String g r' =>
                      if Ascii.eqb g "+" || Ascii.eqb g "-"
                      then (String g (String c acc), r')
                      else (String c acc, r)
                  | EmptyString => (String c acc, r)
                  end in
                if starts_with_digit r1
                then let '(acc2, r2) := digits r1 acc1 in Some (String.rev acc2, r2)
                else None
              else Some (String.rev acc, s)
          | EmptyString => Some (String.rev acc, s)
          end
      end
  end.

(** [strip_prefix p s] is what follows [p] in [s]. *)
Fixpoint strip_prefix (p s : string) : option string :=
  match p, s with
  | EmptyString, _ => Some s
  | String a p', String b s' => if Ascii.eqb a b then strip_prefix p' s' else None
  | String _ _, EmptyString => None
  end.

Definition parse_literal (word : string) (v : JSValue) (s : string)
    : option (JSValue * string) :=
  match strip_prefix word s with
  | Some r => Some (v, r)
  | None => None
  end.

(** A value, the members of an object after its first key's position, the
    elements of an array.  Every nested call works on a shorter text, so
    [fuel] above the length of the text is never used up. *)
Fixpoint parse_value (fuel : nat) (s : string) : option (JSValue * string) :=
  match fuel with
  | O => None
  | S fuel' =>
      match skip_ws s with
      | EmptyString => None
      | String c r =>
          if Ascii.eqb c "{" then
            match skip_ws r with
            | String c' r' =>
                if Ascii.eqb c' "}" then Some (Object [], r')
                else parse_members fuel' r []
            | EmptyString => None
            end
          else if Ascii.eqb c "[" then
            match skip_ws r with
            | String c' r' =>
                if Ascii.eqb c' "]" then Some (Array [], r')
                else parse_elements fuel' r []
            | EmptyString => None
            end
          else if Ascii.eqb c dquote then
            match parse_chars r EmptyString with
            | Some (text, r') => Some (Str text, r')
            | None => None
            end
          else if Ascii.eqb c "t" then parse_literal "true" (Bool true) (String c r)
          else if Ascii.eqb c "f" then parse_literal "false" (Bool false) (String c r)
          else if Ascii.eqb c "n" then parse_literal "null" Null (String c r)
          else
            match parse_number (String c r) with
            | Some (lexeme, r') => Some (Number lexeme, r')
            | None => None
            end
      end
  end
with parse_members (fuel : nat) (s : string) (acc : list (string * JSValue))
    : option (JSValue * string) :=
  match fuel with
  | O => None
  | S fuel' =>
      match skip_ws s with
      | String q r =>
          if Ascii.eqb q dquote then
            match parse_chars r EmptyString with
            | Some (key, r1) =>
                match skip_ws r1 with
                | String colon r2 =>
                    if Ascii.eqb colon ":" then
                      match parse_value fuel' r2 with
                      | Some (v, r3) =>
                          match skip_ws r3 with
                          | String sep r4 =>
                              if Ascii.eqb sep "," then
                                parse_members fuel' r4 ((key, v) :: acc)
                              else if Ascii.eqb sep "}" then
                                Some (Object (rev ((key, v) :: acc)), r4)
                              else None
                          | EmptyString => None
                          end
                      | None => None
                      end
                    else None
                | EmptyString => None
                end
            | None => None
            end
          else None
      | EmptyString => None
      end
  end
with parse_elements (fuel : nat) (s : string) (acc : list JSValue)
    : option (JSValue * string) :=
  match fuel with
  | O => None
  | S fuel' =>
      match parse_value fuel' s with
      | Some (v, r1) =>
          match skip_ws r1 with
          | String sep r2 =>
              if Ascii.eqb sep "," then parse_elements fuel' r2 (v :: acc)
              else if Ascii.eqb sep "]" then Some (Array (rev (v :: acc)), r2)
              else None
          | EmptyString => None
          end
      | None => None
      end
  end.

(** [JSON.parse(text)]: [None] when it throws a [SyntaxError]. *)
Definition parse (text : string) : option JSValue :=
  match parse_value (S (2 * String.length text)) text with
  | Some (v, rest) => if is_empty (skip_ws rest) then Some v else None
  | None => None
  end.

End JSON.

(** ** Operations of JavaScript on these values *)

Module JS.
Import JSString.

(** [data.name] for a name no prototype defines ([type], [content], [error]):
    the own property written last, [undefined] when there is none; [None]
    when the access throws a [TypeError] ([null] and [undefined]). *)
Fixpoint last_member (name : string) (members : list (string * JSValue))
    (found : JSValue) : JSValue :=
  match members with
  | [] => found
  | (k, v) :: rest => last_member name rest (if String.eqb k name then v else found)
  end.

Definition get_prop (data : JSValue) (name : string) : option JSValue :=
  match data with
  | Undefined | Null => None
  | Object members => Some (last_member name members Undefined)
  | Bool _ | Number _ | Str _ | Array _ => Some Undefined
  end.

(** [v === 'text'] *)
Definition strict_eq_str (v : JSValue) (text : string) : bool :=
  match v with
  | Str s => String.eqb s text
  | _ => false
  end.

Definition join (sep : string) (parts : list string) : string :=
  match parts with
  | [] => EmptyString
  | p :: rest => fold_left (fun acc q => acc +:+ sep +:+ q) rest p
  end.

(** [String(v)], the text [s + v] appends to a string [s]; [None] when the
    conversion throws a [TypeError].  A value read from JSON has no callable
    member, so an object is converted by the inherited [toString] unless a
    member of its own named [toString] hides it, and then nothing converts
    it.  An array joins the texts of its elements, empty for [null] and
    [undefined].  A number is rendered by the text it was written with, which
    is what JavaScript prints for an integer of at most fifteen digits other
    than [-0]; a fraction, an exponent, [-0] or a longer integer JavaScript
    prints from the parsed double, which this rendering does not follow. *)
Fixpoint to_text (v : JSValue) : option string :=
  match v with
  | Undefined => Some "undefined"
  | Null => Some "null"
  | Bool true => Some "true"
  | Bool false => Some "false"
  | Number lexeme => Some lexeme
  | Str s => Some s
  | Array items =>
      option_map (join ",")
        ((fix elements (l : list JSValue) : option (list string) :=
            match l with
            | [] => Some []
            | x :: l' =>
                match match x with
                      | Undefined | Null => Some EmptyString
                      | _ => to_text x
                      end, elements l' with
                | Some t, Some ts => Some (t :: ts)
                | _, _ => None
                end
            end) items)
  | Object members =>
      if existsb (fun kv => String.eqb kv.1 "toString") members then None
      else Some "[object Object]"
  end.

(** The text of a value, empty for a value that has none. *)
Definition text (v : JSValue) : string :=
  match to_text v with
  | Some t => t
  | None => EmptyString
  end.

(** [a || b] on strings: [b] when [a] is empty. *)
Definition or_else (a b : string) : string := if is_empty a then b else a.

End JS.

(** ** chatService.ts *)

(** [ChatRequest] of types/chat.ts; the optional [context] is never set. *)
Record ChatRequest : Type := {
  message : string;
  session_id : string;
  user_id : string;
}.

(** What the caller observes of a call: the three callbacks and the console,
    in the order they are invoked. *)
Inductive Event : Type :=
| OnChunk (chunk : JSValue)
| OnComplete (fullContent : string)
| OnError (error : JSValue)
| ConsoleWarn
| ConsoleError.

(** The response to [fetch]: how the body's reads end, the body as the texts
    [decoder.decode(value, { stream: true })] gives for the successive reads,
    the response, and a [fetch] that is rejected. *)
Inductive StreamEnd : Type :=
| EndOfStream
| ReadRejects (message : string).

Record Body : Type := {
  reads : list string;
  ending : StreamEnd;
}.

Record Response : Type := {
  status : N;
  body : option Body;
}.

Inductive FetchResult : Type :=
| FetchRejects (message : string)
| FetchResolves (response : Response).

(** [response.ok] *)
Definition ok (r : Response) : bool := ((200 <=? status r) && (status r <=? 299))%N.

Module ChatService.
Import JSString.

(** How the body of a loop is left: on to the next iteration with the
    accumulated [fullContent], out of the function by [return], or by an
    exception with the thrown error's [message]. *)
Inductive Control : Type :=
| Next (fullContent : string)
| Return
| Throw (message : string).

(** The body of [for (const line of lines)].  Whatever the [try] block
    throws, from [JSON.parse], from reading a property of [null] or from
    [fullContent += data.content] after [onChunk] has been called, is caught
    and logged as a warning. *)
Definition process_line (line : string) (fullContent : string) : list Event * Control :=
  if is_empty (trim line) then ([], Next fullContent)
  else
    match JSON.parse line with
    | None => ([ConsoleWarn], Next fullContent)
    | Some data =>
        match JS.get_prop data "type" with
        | None => ([ConsoleWarn], Next fullContent)
        | Some type =>
            if JS.strict_eq_str type "content" then
              match JS.get_prop data "content" with
              | Some content =>
                  match JS.to_text content with
                  | Some text => ([OnChunk content], Next (fullContent +:+ text))
                  | None => ([OnChunk content; ConsoleWarn], Next fullContent)
                  end
              | None => ([ConsoleWarn], Next fullContent)
              end
            else if JS.strict_eq_str type "done" then
              ([OnComplete fullContent], Return)
            else if JS.strict_eq_str type "error" then
              match JS.get_prop data "error" with
              | Some error => ([OnError error], Return)
              | None => ([ConsoleWarn], Next fullContent)
              end
            else ([], Next fullContent)
        end
    end.

(** [for (const line of lines) { ... }] *)
Fixpoint process_lines (lines : list string) (fullContent : string)
    : list Event * Control :=
  match lines with
  | [] => ([], Next fullContent)
  | line :: rest =>
      match process_line line fullContent with
      | (evs, Next fullContent') =>
          let '(evs', c) := process_lines rest fullContent' in (evs ++ evs', c)
      | (evs, c) => (evs, c)
      end
  end.

(** [while (true) { const { done, value } = await reader.read(); ... }]:
    one iteration for every read, then the read that reports [done] or is
    rejected.  The [finally] block releases the lock of the reader on every
    way out and invokes no callback. *)
Fixpoint read_loop (chunks : list string) (ending : StreamEnd) (fullContent : string)
    : list Event * Control :=
  match chunks with
  | [] =>
      match ending with
      | EndOfStream => ([], Return)
      | ReadRejects message => ([], Throw message)
      end
  | chunk :: rest =>
      match process_lines (split_lines chunk) fullContent with
      | (evs, Next fullContent') =>
          let '(evs', c) := read_loop rest ending fullContent' in (evs ++ evs', c)
      | (evs, c) => (evs, c)
      end
  end.

(** The outer [try] block. *)
Definition try_block (result : FetchResult) : list Event * Control :=
  match result with
  | FetchRejects message => ([], Throw message)
  | FetchResolves response =>
      if negb (ok response) then
        ([], Throw ("HTTP error! status: " +:+ of_N (status response)))
      else
        match body response with
        | None => ([], Throw "无法获取响应流")
        | Some b => read_loop (reads b) (ending b) EmptyString
        end
  end.

(** [sendMessageStream(request, onChunk, onComplete, onError)], given what
    [fetch] answers to a request. *)
Definition sendMessageStream (fetch : ChatRequest -> FetchResult) (request : ChatRequest)
    : list Event :=
  match try_block (fetch request) with
  | (evs, Throw message) =>
      evs ++ [ConsoleError; OnError (Str (JS.or_else message "网络请求失败，请检查网络连接"))]
  | (evs, _) => evs
  end.

End ChatService.

(** ** types/chat.ts *)

Inductive MessageType : Type := user | assistant | system.

(** [ChatMessage]; a [Date] is its time value.  No message this page builds
    carries the optional [metadata]. *)
Record ChatMessage : Type := {
  id : string;
  content : string;
  type : MessageType;
  timestamp : N;
  sessionId : string;
  isError : option bool;
  isStreaming : option bool;
}.

(** ** pages/ChatPage.tsx *)

(** The state [sendMessage] reads and sets. *)
Record PageState : Type := {
  messages : list ChatMessage;
  inputValue : string;
  isLoading : bool;
  currentSessionId : string;
}.

(** What a call of [sendMessage] takes from outside the component: the values
    of its [uuidv4()] and [new Date()] calls, and the server behind [fetch]. *)
Record Env : Type := {
  uuid_user : string;
  date_user : N;
  uuid_ai : string;
  date_ai : N;
  fetch : ChatRequest -> FetchResult;
}.

Module ChatPage.
Import JSString.

Definition apology : string := "抱歉，我现在无法回复您的消息，请稍后再试。".
Definition send_failed : string := "发送消息失败，请重试".

Definition setMessages (f : list ChatMessage -> list ChatMessage) (st : PageState)
    : PageState :=
  {| messages := f (messages st); inputValue := inputValue st;
     isLoading := isLoading st; currentSessionId := currentSessionId st |}.

Definition setInputValue (v : string) (st : PageState) : PageState :=
  {| messages := messages st; inputValue := v;
     isLoading := isLoading st; currentSessionId := currentSessionId st |}.

Definition setIsLoading (b : bool) (st : PageState) : PageState :=
  {| messages := messages st; inputValue := inputValue st;
     isLoading := b; currentSessionId := currentSessionId st |}.

(** [{ ...msg, content: msg.content + chunk }].  For a chunk that has no
    text the addition throws inside the state updater; the page is followed
    no further there and the content is left as it is. *)
Definition append_chunk (chunk : JSValue) (msg : ChatMessage) : ChatMessage :=
  {| id := id msg; content := content msg +:+ JS.text chunk; type := type msg;
     timestamp := timestamp msg; sessionId := sessionId msg;
     isError := isError msg; isStreaming := isStreaming msg |}.

(** [{ ...msg, content: text, isStreaming: false }] *)
Definition close_with (text : string) (msg : ChatMessage) : ChatMessage :=
  {| id := id msg; content := text; type := type msg;
     timestamp := timestamp msg; sessionId := sessionId msg;
     isError := isError msg; isStreaming := Some false |}.

(** [prev.map(msg => msg.id === aiMessageId ? f(msg) : msg)] *)
Definition update_message (aiMessageId : string) (f : ChatMessage -> ChatMessage)
    (prev : list ChatMessage) : list ChatMessage :=
  map (fun msg => if String.eqb (id msg) aiMessageId then f msg else msg) prev.

(** The three callbacks [sendMessage] passes to [sendMessageStream]. *)
Definition onChunk (aiMessageId : string) (chunk : JSValue) (st : PageState) : PageState :=
  setMessages (update_message aiMessageId (append_chunk chunk)) st.

Definition onComplete (aiMessageId : string) (fullContent : string) (st : PageState)
    : PageState :=
  setIsLoading false
    (setMessages (update_message aiMessageId (close_with fullContent)) st).

Definition onError (aiMessageId : string) (error : JSValue) (st : PageState) : PageState :=
  setIsLoading false
    (setMessages (update_message aiMessageId (close_with apology)) st).

(** The state after one event of the call; the console leaves it as it is. *)
Definition handle (aiMessageId : string) (st : PageState) (e : Event) : PageState :=
  match e with
  | OnChunk chunk => onChunk aiMessageId chunk st
  | OnComplete fullContent => onComplete aiMessageId fullContent st
  | OnError error => onError aiMessageId error st
  | ConsoleWarn | ConsoleError => st
  end.

Definition deliver (aiMessageId : string) (events : list Event) (st : PageState)
    : PageState :=
  fold_left (handle aiMessageId) events st.

(** The toasts of [message.error] the events raise. *)
Definition toasts (events : list Event) : list string :=
  flat_map (fun e => match e with OnError _ => [send_failed] | _ => [] end) events.

(** [!inputValue.trim() || isLoading] *)
Definition rejects (st : PageState) : bool :=
  is_empty (trim (inputValue st)) || isLoading st.

Definition userMessage (env : Env) (st : PageState) : ChatMessage :=
  {| id := uuid_user env; content := trim (inputValue st); type := user;
     timestamp := date_user env; sessionId := currentSessionId st;
     isError := None; isStreaming := None |}.

Definition aiMessage (env : Env) (st : PageState) : ChatMessage :=
  {| id := uuid_ai env; content := EmptyString; type := assistant;
     timestamp := date_ai env; sessionId := currentSessionId st;
     isError := None; isStreaming := Some true |}.

Definition request (env : Env) (st : PageState) : ChatRequest :=
  {| message := content (userMessage env st);
     session_id := currentSessionId st;
     user_id := "user_001" |}.

(** From the guard to the call of [sendMessageStream]: the user message and
    the placeholder of the answer are in the list. *)
Definition start (env : Env) (st : PageState) : PageState :=
  setMessages (fun prev => prev ++ [aiMessage env st])
    (setIsLoading true
       (setInputValue EmptyString
          (setMessages (fun prev => prev ++ [userMessage env st]) st))).

(** The result of a call: the state it leaves, the request it passed to
    [sendMessageStream] if it made the call, and the toasts it raised. *)
Record Outcome : Type := {
  state : PageState;
  issued : option ChatRequest;
  notices : list string;
}.

(** The outcome of the early [return]. *)
Definition rejected (st : PageState) : Outcome :=
  {| state := st; issued := None; notices := [] |}.

(** [sendMessage()].  [sendMessageStream] reports every failure through
    [onError] and never rejects, so the [catch] around it is not entered. *)
Definition sendMessage (env : Env) (st : PageState) : Outcome :=
  if rejects st then rejected st
  else
    let events := ChatService.sendMessageStream (fetch env) (request env st) in
    {| state := setIsLoading false (deliver (uuid_ai env) events (start env st));
       issued := Some (request env st);
       notices := toasts events |}.

End ChatPage.

(** ** The provider registry behind [modelAPI]

    ModelSelector.tsx calls [modelAPI.switchModel] and shows the [is_current]
    flags [modelAPI.listModels] returns; the registry that keeps them is on
    the server. *)

Module ProviderRegistry.

(** Modelled from the spec: the ProviderConfig record of the backend, which
    is not part of the frontend sources.  The spec gives it a default model,
    an endpoint base URL, a credential reference, the [configured] flag and
    the [current] flag; the provider key is the key of the registry. *)
Record ProviderConfig : Type := {
  model : string;
  api_base : string;
  credential : string;
  is_configured : bool;
  is_current : bool;
}.

(** Modelled from the spec: the registry state of the backend, one
    configuration per provider key and the static enumeration of the models
    every provider supports. *)
Record Registry : Type := {
  configs : gmap string ProviderConfig;
  supported : gmap string (list string);
}.

(** Modelled from the spec: the error kinds of the registry operations. *)
Inductive Error : Type := UnknownProvider | UnsupportedModel | NoActiveProvider.

Definition set_current (b : bool) (c : ProviderConfig) : ProviderConfig :=
  {| model := model c; api_base := api_base c; credential := credential c;
     is_configured := is_configured c; is_current := b |}.

(** Modelled from the spec: [availableModels(providerKey)], absent from the
    sources: the static enumeration of a provider, [UnknownProvider] for a key
    that is not recognised. *)
Definition availableModels (providerKey : string) (reg : Registry)
    : Error + list string :=
  match configs reg !! providerKey, supported reg !! providerKey with
  | Some _, Some models => inr models
  | Some _, None => inr []
  | None, _ => inl UnknownProvider
  end.

(** Modelled from the spec: [switch(providerKey, modelId)], absent from the
    sources.  It checks that the key is a known, configured provider and that
    the model is one the provider supports; then it clears the [current] flag
    that was set, sets the new one and returns the updated configuration.
    Only the [current] flags change. *)
Definition switch (providerKey modelId : string) (reg : Registry)
    : Error + (ProviderConfig * Registry) :=
  match configs reg !! providerKey with
  | None => inl UnknownProvider
  | Some c =>
      if negb (is_configured c) then inl UnknownProvider
      else
        match availableModels providerKey reg with
        | inl e => inl e
        | inr models =>
            if bool_decide (modelId ∈ models) then
              let c' := set_current true c in
              inr (c', {| configs := <[providerKey := c']> (set_current false <$> configs reg);
                          supported := supported reg |})
            else inl UnsupportedModel
        end
  end.

(** Modelled from the spec: [current()], absent from the sources: the
    provider whose [current] flag is set, [NoActiveProvider] when none is. *)
Definition current (reg : Registry) : Error + (string * ProviderConfig) :=
  match map_to_list (filter (fun kc => is_current kc.2 = true) (configs reg)) with
  | [] => inl NoActiveProvider
  | kc :: _ => inr kc
  end.

(** The registry a call of [switch] leaves: unchanged when it fails. *)
Definition after_switch (providerKey modelId : string) (reg : Registry) : Registry :=
  match switch providerKey modelId reg with
  | inr (_, reg') => reg'
  | inl _ => reg
  end.

(** The registry after a sequence of [switch] calls. *)
Definition after_calls (calls : list (string * string)) (reg : Registry) : Registry :=
  fold_left (fun r call => after_switch call.1 call.2 r) calls reg.

(** Exactly one configuration is marked [current]. *)
Definition exactly_one_current (reg : Registry) : Prop :=
  ∃ k, (∃ c, configs reg !! k = Some c ∧ is_current c = true)
       ∧ ∀ k' c', configs reg !! k' = Some c' → is_current c' = true → k' = k.

(** A registry for the scenarios: OpenAI is current, Gemini is configured,
    DeepSeek has no credential. *)
Definition provider (default_model base key : string) (configured current : bool)
    : ProviderConfig :=
  {| model := default_model; api_base := base; credential := key;
     is_configured := configured; is_current := current |}.

Definition sample : Registry :=
  {| configs :=
       <["openai" := provider "gpt-3.5-turbo" "https://api.openai.com/v1" "OPENAI_API_KEY"
                       true true]>
         (<["gemini" := provider "gemini-pro" "https://generativelanguage.googleapis.com"
                          "GEMINI_API_KEY" true false]>
            (<["deepseek" := provider "deepseek-chat" "https://api.deepseek.com"
                               EmptyString false false]> ∅));
     supported :=
       <["openai" := ["gpt-3.5-turbo"; "gpt-4"]]>
         (<["gemini" := ["gemini-pro"]]>
            (<["deepseek" := ["deepseek-chat"]]> ∅)) |}.

End ProviderRegistry.

(** ** Reading a trace *)

Module Trace.

(** [onComplete] and [onError] end a turn. *)
Definition is_terminal (e : Event) : bool :=
  match e with
  | OnComplete _ | OnError _ => true
  | OnChunk _ | ConsoleWarn | ConsoleError => false
  end.

Definition is_callback (e : Event) : bool :=
  match e with
  | OnChunk _ | OnComplete _ | OnError _ => true
  | ConsoleWarn | ConsoleError => false
  end.

(** The callbacks of a trace, without the console. *)
Definition callbacks (events : list Event) : list Event :=
  List.filter is_callback events.

(** The arguments of the [onChunk] calls of a trace, in order. *)
Definition chunks (events : list Event) : list JSValue :=
  flat_map (fun e => match e with OnChunk c => [c] | _ => [] end) events.

(** The texts of content deltas, concatenated in order; a delta that has
    no text adds nothing. *)
Definition text_of (deltas : list JSValue) : string :=
  fold_right (fun c acc => JS.text c +:+ acc) EmptyString deltas.

(** The shape of what a loop of [sendMessageStream] that started with
    [fullContent = fc] has done when it is left: a run of events that are not
    terminal, during which [fullContent] grew by the chunks delivered, closed
    by [onComplete(fullContent)] or [onError] when the function returned from
    inside the loop. *)
Inductive shaped (fc : string) : list Event * ChatService.Control -> Prop :=
| shaped_next pre :
    Forall (fun e => is_terminal e = false) pre ->
    shaped fc (pre, ChatService.Next (fc +:+ text_of (chunks pre)))
| shaped_complete pre :
    Forall (fun e => is_terminal e = false) pre ->
    shaped fc (pre ++ [OnComplete (fc +:+ text_of (chunks pre))], ChatService.Return)
| shaped_error pre error :
    Forall (fun e => is_terminal e = false) pre ->
    shaped fc (pre ++ [OnError error], ChatService.Return)
| shaped_break pre :
    Forall (fun e => is_terminal e = false) pre ->
    shaped fc (pre, ChatService.Return)
| shaped_throw pre message :
    Forall (fun e => is_terminal e = false) pre ->
    shaped fc (pre, ChatService.Throw message).

(** The shape of a whole trace: events that are not terminal, then nothing,
    or [onComplete] with the text of the chunks, or [onError]. *)
Inductive Ending : Type :=
| Silent
| Completed
| Failed (error : JSValue).

Definition closing (pre : list Event) (e : Ending) : list Event :=
  match e with
  | Silent => []
  | Completed => [OnComplete (text_of (chunks pre))]
  | Failed error => [OnError error]
  end.

(** A trace that ends with a terminal callback. *)
Definition ends_with_terminal (events : list Event) : bool :=
  match last events with
  | Some e => is_terminal e
  | None => false
  end.

(** A loop left by [return] has invoked a terminal callback last. *)
Definition answered (p : list Event * ChatService.Control) : Prop :=
  match p.2 with
  | ChatService.Return => ends_with_terminal p.1 = true
  | ChatService.Next _ | ChatService.Throw _ => True
  end.

End Trace.

(** ** The lines of the stream, as the server writes them *)

Module Wire.
Import JSString.

Definition LF : string := String "010" EmptyString.

(** The three lines of the protocol, for texts that need no escape. *)
Definition content_line (text : string) : string :=
  "{" +:+ quoted "type" +:+ ":" +:+ quoted "content" +:+ ","
      +:+ quoted "content" +:+ ":" +:+ quoted text +:+ "}".

Definition done_line : string :=
  "{" +:+ quoted "type" +:+ ":" +:+ quoted "done" +:+ "}".

Definition error_line (text : string) : string :=
  "{" +:+ quoted "type" +:+ ":" +:+ quoted "error" +:+ ","
      +:+ quoted "error" +:+ ":" +:+ quoted text +:+ "}".

(** A server that answers every request with status 200 and the given body. *)
Definition serve (chunks : list string) (ending : StreamEnd) : ChatRequest -> FetchResult :=
  fun _ => FetchResolves {| status := 200;
                            body := Some {| reads := chunks; ending := ending |} |}.

Definition hello : ChatRequest :=
  {| message := "hello"; session_id := "s1"; user_id := "user_001" |}.

End Wire.

(** ** A page and its surroundings, for the scenarios *)

Module Scenario.
Import Wire.

(** The deployment guide sets [MAX_MESSAGE_LENGTH=2000] in the environment of
    the backend; the page has no such bound. *)
Definition MAX_MESSAGE_LENGTH : nat := 2000.

Definition long_input : string :=
  string_of_list_ascii (repeat "a"%char (S MAX_MESSAGE_LENGTH)).

Definition page (input : string) (loading : bool) : PageState :=
  {| messages := []; inputValue := input; isLoading := loading;
     currentSessionId := "s1" |}.

Definition env_with (server : ChatRequest -> FetchResult) : Env :=
  {| uuid_user := "u1"; date_user := 1; uuid_ai := "a1"; date_ai := 2;
     fetch := server |}.

(** The server streams "Hi", " there" and the [done] line. *)
Definition greeting : Env :=
  env_with (serve [content_line "Hi" +:+ LF;
                   content_line " there" +:+ LF +:+ done_line +:+ LF] EndOfStream).

(** The server streams "Hi" and then reports an error of the provider. *)
Definition failing : Env :=
  env_with (serve [content_line "Hi" +:+ LF +:+ error_line "provider failed" +:+ LF]
                  EndOfStream).

(** The server streams "Hi" and the body ends, with no terminal line. *)
Definition truncated : Env :=
  env_with (serve [content_line "Hi" +:+ LF] EndOfStream).

End Scenario.

(** ** components/ChatHistory.tsx and components/ChatMessage.tsx

    Where the code counts or cuts by position ([length], [substring]) a
    JavaScript string is the list of its UTF-16 code units. *)

Module ChatHistory.

(** The fields of [ChatSession] (types/chat.ts) the list of sessions reads.
    An optional field that is absent is [None]; a [Date] is its time value in
    milliseconds. *)
Record ChatSession : Type := {
  id : list N;
  title : option (list N);
  lastMessage : option (list N);
  messageCount : option N;
  updatedAt : Z;
}.

(** ['...'] *)
Definition ellipsis : list N := [46; 46; 46]%N.

(** [truncateText(text, maxLength)]; the callers pass 20, 40 or the default
    of 30. *)
Definition truncateText (text : list N) (maxLength : nat) : list N :=
  if length text <=? maxLength then text
  else take maxLength text ++ ellipsis.

(** A string that is present and not empty is truthy. *)
Definition truthy (field : option (list N)) : bool :=
  match field with
  | Some (_ :: _) => true
  | Some [] | None => false
  end.

(** The code units of ['会话 ']. *)
Definition session_word : list N := [20250; 35805; 32]%N.

(** [getSessionTitle(session)] *)
Definition getSessionTitle (session : ChatSession) : list N :=
  match title session with
  | Some (u :: t) => u :: t
  | _ =>
      match lastMessage session with
      | Some (u :: m) => truncateText (u :: m) 20
      | _ => session_word ++ take 8 (id session)
      end
  end.

(** What [formatTime] shows: one of four relative forms, or the date the
    locale prints. *)
Inductive TimeLabel : Type :=
| JustNow
| MinutesAgo (minutes : Z)
| HoursAgo (hours : Z)
| DaysAgo (days : Z)
| LocaleDate (timestamp : Z).

(** The branches of [formatTime(timestamp)] at the time [now], both in
    milliseconds; [Math.floor(diff / n)] is the floor division of integers. *)
Definition time_label (now timestamp : Z) : TimeLabel :=
  let diff := (now - timestamp)%Z in
  let minutes := (diff / 60000)%Z in
  let hours := (diff / 3600000)%Z in
  let days := (diff / 86400000)%Z in
  if (minutes <? 1)%Z then JustNow
  else if (minutes <? 60)%Z then MinutesAgo minutes
  else if (hours <? 24)%Z then HoursAgo hours
  else if (days <? 7)%Z then DaysAgo days
  else LocaleDate timestamp.

(** [formatTime(timestamp)], given what [toLocaleDateString] prints. *)
Definition formatTime (toLocaleDateString : Z -> string) (now timestamp : Z) : string :=
  match time_label now timestamp with
  | JustNow => "刚刚"
  | MinutesAgo m => JSString.of_N (Z.to_N m) +:+ "分钟前"
  | HoursAgo h => JSString.of_N (Z.to_N h) +:+ "小时前"
  | DaysAgo d => JSString.of_N (Z.to_N d) +:+ "天前"
  | LocaleDate t => toLocaleDateString t
  end.

End ChatHistory.

(** ** chatService.ts: the token of the user *)

Module AuthToken.

(** [localStorage], and the headers of a request, as maps from names. *)
Definition setAuthToken (token : string) (localStorage : gmap string string)
    : gmap string string :=
  <["auth_token" := token]> localStorage.

Definition clearAuthToken (localStorage : gmap string string) : gmap string string :=
  delete "auth_token" localStorage.

(** [getAuthToken()]: [None] is [null]. *)
Definition getAuthToken (localStorage : gmap string string) : option string :=
  localStorage !! "auth_token".

(** The request interceptor, on the headers of the request: the token, if
    there is one and it is not empty, goes into [Authorization]; the id
    [generateRequestId()] has drawn goes into [X-Request-ID]. *)
Definition requestInterceptor (requestId : string) (localStorage : gmap string string)
    (headers : gmap string string) : gmap string string :=
  let headers' :=
    match localStorage !! "auth_token" with
    | Some token =>
        if JSString.is_empty token then headers
        else <["Authorization" := "Bearer " +:+ token]> headers
    | None => headers
    end in
  <["X-Request-ID" := requestId]> headers'.

End AuthToken.

(** ** pages/ChatPage.tsx: sessions and history *)

(** [ChatHistoryItem] of types/chat.ts, as the page reads it; [timestamp] is
    the time value [new Date(item.timestamp)] has. *)
Record ChatHistoryItem : Type := {
  item_id : option string;
  item_content : string;
  message_type : MessageType;
  item_timestamp : N;
  item_session_id : string;
}.

(** What [chatService.getChatHistory] does: it returns the items or throws. *)
Inductive HistoryResult : Type :=
| HistoryLoaded (items : list ChatHistoryItem)
| HistoryFailed.

Module ChatSessions.
Import ChatPage.

(** The page state with the two flags of the side bar. *)
Record View : Type := {
  page : PageState;
  showHistory : bool;
  isLoadingHistory : bool;
}.

Definition setCurrentSessionId (sessionId : string) (st : PageState) : PageState :=
  {| messages := messages st; inputValue := inputValue st;
     isLoading := isLoading st; currentSessionId := sessionId |}.

Definition history_failed : string := "加载聊天历史失败".

(** [history.map(item => ({ id: item.id || uuidv4(), ... }))]: [uuids k] is
    what the call number [k] of [uuidv4()] returns, and [k] calls have been
    made. *)
Fixpoint format_history (uuids : nat -> string) (k : nat) (items : list ChatHistoryItem)
    : list ChatMessage :=
  match items with
  | [] => []
  | item :: rest =>
      let with_id (i : string) : ChatMessage :=
        {| id := i; content := item_content item; type := message_type item;
           timestamp := item_timestamp item; sessionId := item_session_id item;
           isError := None; isStreaming := None |} in
      match item_id item with
      | Some (String c i) => with_id (String c i) :: format_history uuids k rest
      | Some EmptyString | None => with_id (uuids k) :: format_history uuids (S k) rest
      end
  end.

(** [loadChatHistory(sessionId)]: the view it leaves and the toasts. *)
Definition loadChatHistory (server : string -> HistoryResult) (uuids : nat -> string)
    (sessionId : string) (v : View) : View * list string :=
  match server sessionId with
  | HistoryLoaded items =>
      ({| page := setMessages (fun _ => format_history uuids 0 items) (page v);
          showHistory := showHistory v; isLoadingHistory := false |}, [])
  | HistoryFailed =>
      ({| page := page v; showHistory := showHistory v; isLoadingHistory := false |},
       [history_failed])
  end.

(** [switchSession(sessionId)] *)
Definition switchSession (server : string -> HistoryResult) (uuids : nat -> string)
    (sessionId : string) (v : View) : View * list string :=
  loadChatHistory server uuids sessionId
    {| page := setCurrentSessionId sessionId (page v);
       showHistory := showHistory v; isLoadingHistory := isLoadingHistory v |}.

(** [createNewSession()], with the id [uuidv4()] returns. *)
Definition createNewSession (newSessionId : string) (v : View) : View :=
  {| page := setMessages (fun _ => []) (setCurrentSessionId newSessionId (page v));
     showHistory := false; isLoadingHistory := isLoadingHistory v |}.

(** [sendMessage()] on the page of a view. *)
Definition send (env : Env) (v : View) : View :=
  {| page := state (sendMessage env (page v));
     showHistory := showHistory v; isLoadingHistory := isLoadingHistory v |}.

End ChatSessions.

(** ** What a turn leaves of its placeholder *)

Module Turn.
Import ChatPage Trace.

(** [{ ...msg, content: text }] *)
Definition with_content (text : string) (msg : ChatMessage) : ChatMessage :=
  {| id := id msg; content := text; type := type msg;
     timestamp := timestamp msg; sessionId := sessionId msg;
     isError := isError msg; isStreaming := isStreaming msg |}.

(** The placeholder after the events [pre], none of them terminal, and the
    way the trace closes: still open with the text of the chunks, closed with
    that text, or closed with the apology. *)
Definition placeholder_after (pre : list Event) (ending : Ending) (ai : ChatMessage)
    : ChatMessage :=
  match ending with
  | Silent => with_content (content ai +:+ text_of (chunks pre)) ai
  | Completed => close_with (text_of (chunks pre)) ai
  | Failed _ => close_with apology ai
  end.

(** [onError] is among the events. *)
Definition has_error (events : list Event) : bool :=
  existsb (fun e => match e with OnError _ => true | _ => false end) events.

End Turn.

(** ** The stream of a server that keeps to the protocol *)

Module Protocol.
Import JSString Wire.

(** A text that a JSON string holds as it is: no double quote, no
    backslash, no control character. *)
Definition plain_char (c : ascii) : bool :=
  ((32 <=? byte c) && negb (byte c =? 34) && negb (byte c =? 92))%N.

Fixpoint plain (text : string) : bool :=
  match text with
  | EmptyString => true
  | String c rest => plain_char c && plain rest
  end.

(** A text on one line. *)
Fixpoint no_line_feed (text : string) : bool :=
  match text with
  | EmptyString => true
  | String c rest => negb (byte c =? 10)%N && no_line_feed rest
  end.

(** One read: the content lines of some deltas, each closed by a line
    feed. *)
Fixpoint read_of (deltas : list string) : string :=
  match deltas with
  | [] => EmptyString
  | t :: rest => content_line t +:+ LF +:+ read_of rest
  end.

(** The texts, one after the other. *)
Fixpoint concat_texts (texts : list string) : string :=
  match texts with
  | [] => EmptyString
  | t :: rest => t +:+ concat_texts rest
  end.

End Protocol.

(** ** A side bar and a history server, for the scenarios *)

Module SessionScenario.
Import ChatSessions.

Definition history : list ChatHistoryItem :=
  [ {| item_id := Some "m1"; item_content := "where is my order";
       message_type := user; item_timestamp := 10; item_session_id := "s2" |};
    {| item_id := None; item_content := "it ships today";
       message_type := assistant; item_timestamp := 11; item_session_id := "s2" |} ].

(** The server knows the history of session [s2] and fails for any other. *)
Definition history_server (sessionId : string) : HistoryResult :=
  if String.eqb sessionId "s2" then HistoryLoaded history else HistoryFailed.

Definition uuid_supply (k : nat) : string := "uuid-" +:+ JSString.of_N (N.of_nat k).

Definition view (input : string) : View :=
  {| page := {| messages := [ {| id := "old"; content := "earlier"; type := user;
                                 timestamp := 1; sessionId := "s1";
                                 isError := None; isStreaming := None |} ];
                inputValue := input; isLoading := false; currentSessionId := "s1" |};
     showHistory := true; isLoadingHistory := false |}.

End SessionScenario.

(** ** components/ChatMessage.tsx: the content of a message *)

Module MessageView.
Import JSString.









End MessageView.

(** ** pages/ChatPage.tsx: [sendMessage] as the function of one render

    A render of the page creates its own [sendMessage], which reads
    [inputValue], [isLoading] and [currentSessionId] as that render had
    them.  Its state setters work on the state at the time of the call:
    [setMessages(prev => ...)] gets the list as it is then. *)

Module Render.
Import ChatPage.

(** From the guard to the call of [sendMessageStream], for the function of
    the render [rendered] called when the state is [current]. *)
Definition startFrom (env : Env) (rendered current : PageState) : PageState :=
  setMessages (fun prev => prev ++ [aiMessage env rendered])
    (setIsLoading true
       (setInputValue EmptyString
          (setMessages (fun prev => prev ++ [userMessage env rendered]) current))).

(** [sendMessage()] of the render [rendered], called when the state is
    [current], and run to its end with no callback of another turn in
    between.  [ChatPage.sendMessage env st] is the call in which the two are
    the same. *)
Definition sendMessageFrom (env : Env) (rendered current : PageState) : Outcome :=
  if rejects rendered then rejected current
  else
    let events := ChatService.sendMessageStream (fetch env) (request env rendered) in
    {| state := setIsLoading false (deliver (uuid_ai env) events (startFrom env rendered current));
       issued := Some (request env rendered);
       notices := toasts events |}.

(** The ids and times a second call draws, with the server of the greeting. *)
Definition second_call : Env :=
  {| uuid_user := "u2"; date_user := 3; uuid_ai := "a2"; date_ai := 4;
     fetch := fetch Scenario.greeting |}.

End Render.

(** What the callbacks never change of a message. *)
Definition same_header (m m' : ChatMessage) : Prop :=
  id m' = id m /\ type m' = type m /\ timestamp m' = timestamp m
  /\ sessionId m' = sessionId m /\ isError m' = isError m.

(** * Properties *)

Section StringFacts.

Lemma append_nil_r (s : string) : s +:+ EmptyString = s.
Proof.
  induction s as [|c s IH]; [reflexivity|].
  change (String c (s +:+ EmptyString) = String c s). by rewrite IH.
Qed.

Lemma append_assoc (a b c : string) : (a +:+ b) +:+ c = a +:+ (b +:+ c).
Proof.
  induction a as [|x a IH]; [reflexivity|].
  change (String x ((a +:+ b) +:+ c) = String x (a +:+ (b +:+ c))). by rewrite IH.
Qed.

End StringFacts.

(** ** [JSON.parse] never runs out of fuel *)

Section ParserFacts.
Import JSON.

Lemma skip_ws_length s : String.length (skip_ws s) <= String.length s.
Proof.
  induction s as [|c s IH]; simpl; [lia|].
  destruct (is_ws c); simpl; lia.
Qed.

Lemma parse_chars_length n :
  forall s acc text r,
    String.length s <= n ->
    parse_chars s acc = Some (text, r) ->
    String.length r < String.length s.
Proof.
  induction n as [|n IH]; intros s acc text r Hn H.
  { destruct s; simpl in *; [discriminate | lia]. }
  destruct s as [|c s]; [discriminate|].
  simpl in Hn. simpl in H.
  repeat (match type of H with
          | context [if ?b then _ else _] => destruct b
          | context [match ?x with EmptyString => _ | String _ _ => _ end] => destruct x
          | context [match hex4 ?a ?b ?c ?d with _ => _ end] => destruct (hex4 a b c d)
          end; simpl in Hn; try discriminate);
  try (injection H as <- <-; simpl; lia);
  try (apply IH in H; simpl in *; lia).
Qed.


Lemma digits_length s : forall acc, String.length (digits s acc).2 <= String.length s.
Proof.
  induction s as [|c s IH]; intros acc; simpl; [lia|].
  destruct (is_digit c); simpl; [|lia]. specialize (IH (String c acc)). lia.
Qed.

Lemma parse_number_length s lexeme r :
  parse_number s = Some (lexeme, r) -> String.length r < String.length s.
Proof.
  unfold parse_number. intros H.
  repeat (match type of H with
          | context [if ?b then _ else _] => destruct b
          | context [match ?x with EmptyString => _ | String _ _ => _ end] => destruct x
          | context [digits ?x ?a] =>
              let Hd := fresh "Hd" in
              pose proof (digits_length x a) as Hd; destruct (digits x a); simpl in Hd
          end; simpl in H; try discriminate);
  injection H as <- <-; simpl in *; lia.
Qed.

Lemma strip_prefix_length p : forall s r,
  strip_prefix p s = Some r -> String.length r + String.length p = String.length s.
Proof.
  induction p as [|a p IH]; intros s r H; simpl in *.
  - injection H as <-. lia.
  - destruct s as [|b s]; [discriminate|]. destruct (Ascii.eqb a b); [|discriminate].
    apply IH in H. simpl. lia.
Qed.

Lemma parse_literal_length word v s v' r :
  word <> EmptyString ->
  parse_literal word v s = Some (v', r) -> String.length r < String.length s.
Proof.
  unfold parse_literal. intros Hw H.
  destruct (strip_prefix word s) as [r'|] eqn:Hs; [|discriminate].
  injection H as <- <-. apply strip_prefix_length in Hs.
  destruct word; [done|]. simpl in Hs. lia.
Qed.

(** Whatever is parsed, the rest is shorter than the text. *)
Lemma parse_rest_shorter fuel :
  (forall s v r, parse_value fuel s = Some (v, r) -> String.length r < String.length s)
  /\ (forall s acc v r,
        parse_members fuel s acc = Some (v, r) -> String.length r < String.length s)
  /\ (forall s acc v r,
        parse_elements fuel s acc = Some (v, r) -> String.length r < String.length s).
Proof.
  induction fuel as [|fuel (IHv & IHm & IHe)]; [by repeat split|].
  split; [|split].
  - intros s v r H. simpl in H.
    pose proof (skip_ws_length s) as Hs.
    destruct (skip_ws s) as [|c s1]; [discriminate|]. simpl in Hs.
    destruct (Ascii.eqb c "{").
    { pose proof (skip_ws_length s1) as Hs1.
      destruct (skip_ws s1) as [|c' s2]; [discriminate|]. simpl in Hs1.
      destruct (Ascii.eqb c' "}").
      - injection H as <- <-. lia.
      - apply IHm in H. lia. }
    destruct (Ascii.eqb c "[").
    { pose proof (skip_ws_length s1) as Hs1.
      destruct (skip_ws s1) as [|c' s2]; [discriminate|]. simpl in Hs1.
      destruct (Ascii.eqb c' "]").
      - injection H as <- <-. lia.
      - apply IHe in H. lia. }
    destruct (Ascii.eqb c JSString.dquote).
    { destruct (parse_chars s1 EmptyString) as [[text r']|] eqn:Hc; [|discriminate].
      injection H as <- <-. apply (parse_chars_length _ _ _ _ _ (le_n _)) in Hc. lia. }
    destruct (Ascii.eqb c "t").
    { apply parse_literal_length in H; [simpl in H; lia | done]. }
    destruct (Ascii.eqb c "f").
    { apply parse_literal_length in H; [simpl in H; lia | done]. }
    destruct (Ascii.eqb c "n").
    { apply parse_literal_length in H; [simpl in H; lia | done]. }
    destruct (parse_number (String c s1)) as [[lexeme r']|] eqn:Hn; [|discriminate].
    injection H as <- <-. apply parse_number_length in Hn. simpl in Hn. lia.
  - intros s acc v r H. simpl in H.
    pose proof (skip_ws_length s) as Hs.
    destruct (skip_ws s) as [|q s1]; [discriminate|]. simpl in Hs.
    destruct (Ascii.eqb q JSString.dquote); [|discriminate].
    destruct (parse_chars s1 EmptyString) as [[key r1]|] eqn:Hc; [|discriminate].
    apply (parse_chars_length _ _ _ _ _ (le_n _)) in Hc.
    pose proof (skip_ws_length r1) as Hr1.
    destruct (skip_ws r1) as [|colon r2]; [discriminate|]. simpl in Hr1.
    destruct (Ascii.eqb colon ":"); [|discriminate].
    destruct (parse_value fuel r2) as [[v' r3]|] eqn:Hv; [|discriminate].
    apply IHv in Hv.
    pose proof (skip_ws_length r3) as Hr3.
    destruct (skip_ws r3) as [|sep r4]; [discriminate|]. simpl in Hr3.
    destruct (Ascii.eqb sep ",").
    { apply IHm in H. lia. }
    destruct (Ascii.eqb sep "}"); [|discriminate].
    injection H as <- <-. lia.
  - intros s acc v r H. simpl in H.
    destruct (parse_value fuel s) as [[v' r1]|] eqn:Hv; [|discriminate].
    apply IHv in Hv.
    pose proof (skip_ws_length r1) as Hr1.
    destruct (skip_ws r1) as [|sep r2]; [discriminate|]. simpl in Hr1.
    destruct (Ascii.eqb sep ",").
    { apply IHe in H. lia. }
    destruct (Ascii.eqb sep "]"); [|discriminate].
    injection H as <- <-. lia.
Qed.


(** Fuel above twice the length of the text is never used up: more fuel
    gives the same result. *)
Lemma parse_fuel_enough fuel :
  (forall s more,
      2 * String.length s < fuel -> fuel <= more ->
      parse_value more s = parse_value fuel s)
  /\ (forall s acc more,
        2 * String.length s < fuel -> fuel <= more ->
        parse_members more s acc = parse_members fuel s acc)
  /\ (forall s acc more,
        2 * String.length s + 1 < fuel -> fuel <= more ->
        parse_elements more s acc = parse_elements fuel s acc).
Proof.
  induction fuel as [|fuel (IHv & IHm & IHe)]; [repeat split; intros; lia|].
  split; [|split].
  - intros s [|more] Hs Hmore; [lia|]. simpl.
    pose proof (skip_ws_length s) as Hl.
    destruct (skip_ws s) as [|c s1]; [done|]. simpl in Hl.
    pose proof (skip_ws_length s1) as Hl1.
    destruct (Ascii.eqb c "{").
    { destruct (skip_ws s1) as [|c' s2]; [done|].
      destruct (Ascii.eqb c' "}"); [done|]. apply IHm; lia. }
    destruct (Ascii.eqb c "[").
    { destruct (skip_ws s1) as [|c' s2]; [done|].
      destruct (Ascii.eqb c' "]"); [done|]. apply IHe; lia. }
    done.
  - intros s acc [|more] Hs Hmore; [lia|]. simpl.
    pose proof (skip_ws_length s) as Hl.
    destruct (skip_ws s) as [|q s1]; [done|]. simpl in Hl.
    destruct (Ascii.eqb q JSString.dquote); [|done].
    destruct (parse_chars s1 EmptyString) as [[key r1]|] eqn:Hc; [|done].
    apply (parse_chars_length _ _ _ _ _ (le_n _)) in Hc.
    pose proof (skip_ws_length r1) as Hr1.
    destruct (skip_ws r1) as [|colon r2]; [done|]. simpl in Hr1.
    destruct (Ascii.eqb colon ":"); [|done].
    rewrite (IHv r2 more) by lia.
    destruct (parse_value fuel r2) as [[v' r3]|] eqn:Hv; [|done].
    apply (proj1 (parse_rest_shorter fuel)) in Hv.
    pose proof (skip_ws_length r3) as Hr3.
    destruct (skip_ws r3) as [|sep r4]; [done|]. simpl in Hr3.
    destruct (Ascii.eqb sep ","); [|done]. apply IHm; lia.
  - intros s acc [|more] Hs Hmore; [lia|]. simpl.
    rewrite (IHv s more) by lia.
    destruct (parse_value fuel s) as [[v' r1]|] eqn:Hv; [|done].
    apply (proj1 (parse_rest_shorter fuel)) in Hv.
    pose proof (skip_ws_length r1) as Hr1.
    destruct (skip_ws r1) as [|sep r2]; [done|]. simpl in Hr1.
    destruct (Ascii.eqb sep ","); [|done]. apply IHe; lia.
Qed.

(** [JSON.parse] does not depend on its fuel: the parser run with any larger
    amount gives the same value. *)
Lemma parse_fuel_independent text more :
  S (2 * String.length text) <= more ->
  parse text
  = match parse_value more text with
    | Some (v, rest) => if JSString.is_empty (skip_ws rest) then Some v else None
    | None => None
    end.
Proof.
  intros H. unfold parse.
  by rewrite (proj1 (parse_fuel_enough (S (2 * String.length text))) text more) by lia.
Qed.

End ParserFacts.

Section TraceFacts.
Import Trace.

Lemma chunks_app (l1 l2 : list Event) : chunks (l1 ++ l2) = chunks l1 ++ chunks l2.
Proof. unfold chunks. apply flat_map_app. Qed.

Lemma text_of_app (l1 l2 : list JSValue) : text_of (l1 ++ l2) = text_of l1 +:+ text_of l2.
Proof.
  induction l1 as [|c l1 IH]; simpl; [reflexivity|].
  by rewrite IH, append_assoc.
Qed.

(** A loop body that goes on to the next iteration, followed by the rest of
    the loop. *)
Lemma shaped_seq fc pre fc' rest c :
  shaped fc (pre, ChatService.Next fc') ->
  shaped fc' (rest, c) ->
  shaped fc (pre ++ rest, c).
Proof.
  intros Hpre Hrest. inversion Hpre as [p Hp Heq| | | |]; subst.
  inversion Hrest as [q Hq|q Hq|q e Hq|q Hq|q m Hq]; subst.
  - replace ((fc +:+ text_of (chunks pre)) +:+ text_of (chunks rest))
      with (fc +:+ text_of (chunks (pre ++ rest)))
      by (by rewrite chunks_app, text_of_app, append_assoc).
    constructor. by apply Forall_app.
  - replace ((fc +:+ text_of (chunks pre)) +:+ text_of (chunks q))
      with (fc +:+ text_of (chunks (pre ++ q)))
      by (by rewrite chunks_app, text_of_app, append_assoc).
    rewrite app_assoc. constructor. by apply Forall_app.
  - rewrite app_assoc. constructor. by apply Forall_app.
  - constructor. by apply Forall_app.
  - constructor. by apply Forall_app.
Qed.

End TraceFacts.

Section StreamFacts.
Import Trace ChatService.

Lemma shaped_next_eq fc pre fc' :
  Forall (fun e => is_terminal e = false) pre ->
  fc' = fc +:+ text_of (chunks pre) ->
  shaped fc (pre, Next fc').
Proof. intros H ->. by constructor. Qed.

Lemma shaped_complete_eq fc pre text :
  Forall (fun e => is_terminal e = false) pre ->
  text = fc +:+ text_of (chunks pre) ->
  shaped fc (pre ++ [OnComplete text], Return).
Proof. intros H ->. by constructor. Qed.

Lemma process_line_shaped line fc : shaped fc (process_line line fc).
Proof.
  unfold process_line.
  destruct (JSString.is_empty (JSString.trim line)).
  { apply shaped_next_eq; [constructor | by rewrite append_nil_r]. }
  assert (Hwarn : shaped fc ([ConsoleWarn], Next fc)).
  { apply shaped_next_eq; [by repeat constructor | by rewrite append_nil_r]. }
  destruct (JSON.parse line) as [data|]; [|exact Hwarn].
  destruct (JS.get_prop data "type") as [ty|]; [|exact Hwarn].
  destruct (JS.strict_eq_str ty "content").
  { destruct (JS.get_prop data "content") as [c|]; [|exact Hwarn].
    destruct (JS.to_text c) as [t|] eqn:Ht.
    - apply shaped_next_eq; [by repeat constructor|].
      simpl. unfold JS.text. by rewrite Ht, append_nil_r.
    - apply shaped_next_eq; [by repeat constructor|].
      simpl. unfold JS.text. by rewrite Ht, append_nil_r. }
  destruct (JS.strict_eq_str ty "done").
  { apply (shaped_complete_eq fc []); [constructor | by rewrite append_nil_r]. }
  destruct (JS.strict_eq_str ty "error").
  { destruct (JS.get_prop data "error") as [e|]; [|exact Hwarn].
    apply (shaped_error fc []). constructor. }
  apply shaped_next_eq; [constructor | by rewrite append_nil_r].
Qed.

(** A loop body never throws out of [process_line]: what [JSON.parse] and the
    property reads throw is caught inside. *)
Lemma process_line_no_throw line fc message :
  (process_line line fc).2 <> Throw message.
Proof.
  unfold process_line.
  repeat (match goal with
          | |- context [if ?b then _ else _] => destruct b
          | |- context [match ?o with Some _ => _ | None => _ end] => destruct o
          end; simpl; try discriminate).
Qed.

Lemma process_lines_shaped lines : forall fc, shaped fc (process_lines lines fc).
Proof.
  induction lines as [|line rest IH]; intros fc; simpl.
  { apply shaped_next_eq; [constructor | by rewrite append_nil_r]. }
  pose proof (process_line_shaped line fc) as Hline.
  destruct (process_line line fc) as [evs [fc'| |m]]; try exact Hline.
  specialize (IH fc'). destruct (process_lines rest fc') as [evs' c].
  by eapply shaped_seq.
Qed.

Lemma read_loop_shaped chunks_read ending :
  forall fc, shaped fc (read_loop chunks_read ending fc).
Proof.
  induction chunks_read as [|chunk rest IH]; intros fc; simpl.
  { destruct ending; constructor; constructor. }
  pose proof (process_lines_shaped (JSString.split_lines chunk) fc) as Hlines.
  destruct (process_lines (JSString.split_lines chunk) fc) as [evs [fc'| |m]];
    try exact Hlines.
  specialize (IH fc'). destruct (read_loop rest ending fc') as [evs' c].
  by eapply shaped_seq.
Qed.

Lemma try_block_shaped result : shaped EmptyString (try_block result).
Proof.
  destruct result as [m|r]; simpl.
  { constructor. constructor. }
  destruct (negb (ok r)); [constructor; constructor|].
  destruct (body r) as [b|]; [apply read_loop_shaped | constructor; constructor].
Qed.

(** Every trace of [sendMessageStream] is a run of events that are not
    terminal, closed by nothing, by [onComplete] with the text of the chunks
    delivered, or by [onError]. *)
Lemma sendMessageStream_shape fetch request :
  exists pre ending,
    sendMessageStream fetch request = pre ++ closing pre ending
    /\ Forall (fun e => is_terminal e = false) pre.
Proof.
  unfold sendMessageStream.
  pose proof (try_block_shaped (fetch request)) as H.
  destruct (try_block (fetch request)) as [evs c].
  inversion H as [p Hp|p Hp|p e Hp|p Hp|p m Hp]; subst.
  - exists evs, Silent. by rewrite app_nil_r.
  - exists p, Completed. done.
  - exists p, (Failed e). done.
  - exists evs, Silent. by rewrite app_nil_r.
  - exists (evs ++ [ConsoleError]), (Failed (Str (JS.or_else m "网络请求失败，请检查网络连接"))).
    split; [by rewrite <- app_assoc|].
    apply Forall_app; split; [done | by repeat constructor].
Qed.

End StreamFacts.

Section FailurePaths.
Import Trace ChatService.

Lemma ends_with_terminal_app l1 l2 :
  ends_with_terminal l2 = true -> ends_with_terminal (l1 ++ l2) = true.
Proof.
  unfold ends_with_terminal. rewrite last_app.
  by destruct (last l2).
Qed.

Lemma process_line_answered line fc : answered (process_line line fc).
Proof.
  unfold process_line, answered.
  repeat (match goal with
          | |- context [if ?b then _ else _] => destruct b
          | |- context [match ?o with Some _ => _ | None => _ end] => destruct o
          end; simpl; try done).
Qed.

Lemma process_lines_answered lines : forall fc, answered (process_lines lines fc).
Proof.
  induction lines as [|line rest IH]; intros fc; simpl; [done|].
  pose proof (process_line_answered line fc) as Hline.
  destruct (process_line line fc) as [evs [fc'| |m]]; try exact Hline.
  specialize (IH fc'). destruct (process_lines rest fc') as [evs' [fc''| |m']]; try done.
  by apply ends_with_terminal_app.
Qed.

Lemma read_loop_rejected_answered chunks_read message :
  forall fc, answered (read_loop chunks_read (ReadRejects message) fc)
             /\ forall fc', (read_loop chunks_read (ReadRejects message) fc).2 <> Next fc'.
Proof.
  induction chunks_read as [|chunk rest IH]; intros fc; simpl; [done|].
  pose proof (process_lines_answered (JSString.split_lines chunk) fc) as Hlines.
  destruct (process_lines (JSString.split_lines chunk) fc) as [evs [fc'| |m]];
    try (split; [exact Hlines | done]).
  destruct (IH fc') as [Hans Hnext].
  destruct (read_loop rest (ReadRejects message) fc') as [evs' [fc''| |m']]; simpl.
  - by destruct (Hnext fc'').
  - split; [|done]. by apply ends_with_terminal_app.
  - done.
Qed.

(** Every failure of the transport is reported: when [fetch] is rejected,
    the status is not ok, there is no body, or a read is rejected, the call
    ends with a terminal callback.  The body that ends is the one way out
    without one. *)
Lemma transport_failure_is_reported fetch request :
  (forall r b, fetch request = FetchResolves r -> ok r = true -> body r = Some b ->
               ending b <> EndOfStream) ->
  ends_with_terminal (sendMessageStream fetch request) = true.
Proof.
  intros Hend. unfold sendMessageStream, try_block.
  destruct (fetch request) as [m|r] eqn:Hf; [done|].
  destruct (ok r) eqn:Hok; simpl; [|done].
  destruct (body r) as [b|] eqn:Hb; [|done].
  specialize (Hend r b eq_refl Hok Hb).
  destruct (ending b) as [|m]; [done|].
  destruct (read_loop_rejected_answered (reads b) m EmptyString) as [Hans Hnext].
  destruct (read_loop (reads b) (ReadRejects m) EmptyString) as [evs [fc|  |m']].
  - by destruct (Hnext fc).
  - exact Hans.
  - by apply ends_with_terminal_app.
Qed.

End FailurePaths.

(** ** The streaming client *)

Section StreamingClient.
Import Trace ChatService Wire.

Lemma chunks_closing pre ending : chunks (closing pre ending) = [].
Proof. by destruct ending. Qed.

Lemma not_terminal_in pre e :
  Forall (fun e => is_terminal e = false) pre -> In e pre -> is_terminal e = false.
Proof. intros H Hin. by apply (proj1 (List.Forall_forall _ _) H). Qed.

(** C1. In every call of [sendMessageStream] that reaches a [done] line, the
    text passed to [onComplete] is the concatenation, in delivery order, of
    the texts of the values passed to [onChunk]. *)
Theorem complete_text_is_concatenation_of_chunks fetch request finalText :
  In (OnComplete finalText) (sendMessageStream fetch request) ->
  finalText = text_of (chunks (sendMessageStream fetch request)).
Proof.
  destruct (sendMessageStream_shape fetch request) as (pre & ending & -> & Hpre).
  intros Hin. rewrite chunks_app, chunks_closing, app_nil_r.
  apply in_app_or in Hin as [Hin|Hin].
  - apply (not_terminal_in _ _ Hpre) in Hin. discriminate.
  - destruct ending; simpl in Hin; intuition congruence.
Qed.

Lemma complete_text_is_concatenation_of_chunks_witness :
  In (OnComplete "Hi there")
     (sendMessageStream
        (serve [content_line "Hi" +:+ LF; content_line " there" +:+ LF +:+ done_line +:+ LF]
               EndOfStream) hello)
  /\ "Hi there"
     = text_of (chunks (sendMessageStream
        (serve [content_line "Hi" +:+ LF; content_line " there" +:+ LF +:+ done_line +:+ LF]
               EndOfStream) hello)).
Proof.
  assert (H : In (OnComplete "Hi there")
     (sendMessageStream
        (serve [content_line "Hi" +:+ LF; content_line " there" +:+ LF +:+ done_line +:+ LF]
               EndOfStream) hello)).
  { vm_compute. right. right. left. reflexivity. }
  split; [exact H |].
  exact (complete_text_is_concatenation_of_chunks _ _ _ H).
Defined.

(** C2. In every call of [sendMessageStream] at most one terminal callback
    ([onComplete] or [onError]) is invoked, and it is the last event of the
    call: no [onChunk], [onComplete] or [onError] follows it. *)
Theorem terminal_callback_is_unique_and_last fetch request :
  exists pre post,
    sendMessageStream fetch request = pre ++ post
    /\ Forall (fun e => is_terminal e = false) pre
    /\ (post = [] \/ exists t, post = [t] /\ is_terminal t = true).
Proof.
  destruct (sendMessageStream_shape fetch request) as (pre & ending & Heq & Hpre).
  exists pre, (closing pre ending). split; [exact Heq|]. split; [exact Hpre|].
  destruct ending; simpl; [by left | right; eauto | right; eauto].
Qed.

(** C3. A body that ends after a content line, with no [done] or [error]
    line: [sendMessageStream] returns after [onChunk], and neither
    [onComplete] nor [onError] has been invoked.  On the page the turn is
    over, the loading flag is down, and the placeholder still reads as
    streaming. *)
Theorem stream_end_without_terminal_line_is_silent :
  sendMessageStream (serve [content_line "Hi" +:+ LF] EndOfStream) hello
  = [OnChunk (Str "Hi")]
  /\ ends_with_terminal
       (sendMessageStream (serve [content_line "Hi" +:+ LF] EndOfStream) hello) = false
  /\ map (fun m => (content m, isStreaming m))
       (messages (ChatPage.state
                    (ChatPage.sendMessage Scenario.truncated (Scenario.page "hello" false))))
     = [("hello", None); ("Hi", Some true)]
  /\ isLoading (ChatPage.state
                  (ChatPage.sendMessage Scenario.truncated (Scenario.page "hello" false)))
     = false.
Proof. repeat split; vm_compute; reflexivity. Qed.

(** C4. A content line cut by the boundary of two reads is parsed as two
    broken lines: both halves are skipped with a warning, the delta is never
    delivered and the turn completes with an empty text.  The same bytes in
    one read deliver it. *)
Theorem line_across_two_reads_is_dropped :
  sendMessageStream
    (serve ["{" +:+ JSString.quoted "type" +:+ ":" +:+ JSString.quoted "content" +:+ ","
              +:+ JSString.quoted "content" +:+ ":" +:+ String JSString.dquote "H";
            "i" +:+ String JSString.dquote "}" +:+ LF +:+ done_line +:+ LF]
           EndOfStream) hello
  = [ConsoleWarn; ConsoleWarn; OnComplete EmptyString]
  /\ sendMessageStream
       (serve [content_line "Hi" +:+ LF +:+ done_line +:+ LF] EndOfStream) hello
     = [OnChunk (Str "Hi"); OnComplete "Hi"].
Proof. split; vm_compute; reflexivity. Qed.

End StreamingClient.

Section SkippedLines.
Import Trace ChatService Wire.

Lemma process_lines_cons line rest fc :
  process_lines (line :: rest) fc
  = match process_line line fc with
    | (evs, Next fc') =>
        ((evs ++ (process_lines rest fc').1), (process_lines rest fc').2)
    | (evs, c) => (evs, c)
    end.
Proof.
  simpl. destruct (process_line line fc) as [evs [fc'| |m]]; try reflexivity.
  by destruct (process_lines rest fc').
Qed.

Lemma callbacks_app l1 l2 : callbacks (l1 ++ l2) = callbacks l1 ++ callbacks l2.
Proof. unfold callbacks. apply List.filter_app. Qed.

Lemma process_line_unparseable line fc :
  JSON.parse line = None ->
  process_line line fc
  = (if JSString.is_empty (JSString.trim line) then [] else [ConsoleWarn], Next fc).
Proof.
  intros Hparse. unfold process_line. rewrite Hparse.
  by destruct (JSString.is_empty (JSString.trim line)).
Qed.

(** C5, as the code has it.  A line that [JSON.parse] rejects is skipped:
    no callback is invoked for it and the loop goes on with [fullContent] as
    it was; a warning is logged unless the line is blank.  The lines around
    it are handled as if it were not there: the callbacks of the chunk and
    the way its loop is left are those of the chunk without the line. *)
Theorem unparseable_line_is_skipped line :
  JSON.parse line = None ->
  (forall fc,
      process_line line fc
      = (if JSString.is_empty (JSString.trim line) then [] else [ConsoleWarn], Next fc))
  /\ (forall before after fc,
         callbacks (process_lines (before ++ line :: after) fc).1
         = callbacks (process_lines (before ++ after) fc).1
         /\ (process_lines (before ++ line :: after) fc).2
            = (process_lines (before ++ after) fc).2).
Proof.
  intros Hparse. split; [intros fc; by apply process_line_unparseable|].
  induction before as [|l before IH]; intros after fc.
  - simpl app. rewrite process_lines_cons, (process_line_unparseable _ _ Hparse).
    simpl. rewrite callbacks_app.
    by destruct (JSString.is_empty (JSString.trim line)).
  - rewrite <- !app_comm_cons, !process_lines_cons.
    destruct (process_line l fc) as [evs [fc'| |m]]; simpl; try done.
    destruct (IH after fc') as [Hcb Hctl].
    by rewrite !callbacks_app, Hcb, Hctl.
Qed.

Lemma unparseable_line_is_skipped_witness :
  JSON.parse "not json" = None
  /\ process_line "not json" "Hi" = ([ConsoleWarn], Next "Hi")
  /\ callbacks (process_lines [content_line "Hi"; "not json"; done_line] EmptyString).1
     = callbacks (process_lines [content_line "Hi"; done_line] EmptyString).1.
Proof.
  assert (H : JSON.parse "not json" = None) by (vm_compute; reflexivity).
  split; [exact H|]. split.
  - exact (proj1 (unparseable_line_is_skipped "not json" H) "Hi").
  - exact (proj1 (proj2 (unparseable_line_is_skipped "not json" H)
                    [content_line "Hi"] [done_line] EmptyString)).
Defined.

(** C5, as the claim has it, fails: a blank line is not valid JSON and is
    skipped without a warning; a stream whose only line is not valid JSON
    completes with an empty text when a [done] line follows, and returns with
    no callback at all when the body ends. *)
Lemma no_valid_output_is_not_an_error :
  JSON.parse EmptyString = None
  /\ process_line EmptyString "Hi" = ([], Next "Hi")
  /\ sendMessageStream (serve ["not json" +:+ LF +:+ done_line +:+ LF] EndOfStream) hello
     = [ConsoleWarn; OnComplete EmptyString]
  /\ sendMessageStream (serve ["not json" +:+ LF] EndOfStream) hello = [ConsoleWarn].
Proof. repeat split; vm_compute; reflexivity. Qed.

End SkippedLines.

Section ReadBoundaries.
Import Trace ChatService Wire JSString.

Lemma split_go_line_feed a : forall cur b,
  split_go cur (a +:+ LF +:+ b) = split_go cur a ++ split_lines b.
Proof.
  induction a as [|c a IH]; intros cur b.
  - reflexivity.
  - change (String c a +:+ LF +:+ b) with (String c (a +:+ LF +:+ b)).
    simpl. destruct (byte c =? 10)%N; by rewrite IH.
Qed.

Lemma split_lines_line_feed a b :
  split_lines (a +:+ LF +:+ b) = split_lines a ++ split_lines b.
Proof. apply split_go_line_feed. Qed.

Lemma process_lines_app l1 : forall l2 fc,
  process_lines (l1 ++ l2) fc
  = match process_lines l1 fc with
    | (evs, Next fc') =>
        (evs ++ (process_lines l2 fc').1, (process_lines l2 fc').2)
    | r => r
    end.
Proof.
  induction l1 as [|l l1 IH]; intros l2 fc.
  - simpl. by destruct (process_lines l2 fc).
  - rewrite <- app_comm_cons, !process_lines_cons.
    destruct (process_line l fc) as [evs [fc'| |m]]; try done.
    rewrite IH. destruct (process_lines l1 fc') as [evs1 [fc1| |m1]]; simpl; try done.
    by rewrite app_assoc.
Qed.

(** A boundary between two reads that falls right after a line feed changes
    nothing: the two reads are handled like one read of the same text. *)
Lemma read_boundary_after_line_feed a b rest ending fc :
  read_loop ((a +:+ LF) :: b :: rest) ending fc
  = read_loop ((a +:+ LF +:+ b) :: rest) ending fc.
Proof.
  cbn [read_loop].
  rewrite <- (append_nil_r (a +:+ LF)), append_assoc, !split_lines_line_feed.
  rewrite !process_lines_app.
  destruct (process_lines (split_lines a) fc) as [evs [fc'| |m]]; try done.
  change (process_lines (split_lines EmptyString) fc') with ([] : list Event, Next fc').
  cbn [fst snd]. rewrite app_nil_r.
  destruct (process_lines (split_lines b) fc') as [evs' [fc''| |m']]; cbn [fst snd].
  - destruct (read_loop rest ending fc'') as [evs'' c]. by rewrite app_assoc.
  - done.
  - done.
Qed.

End ReadBoundaries.

(** ** The chat page *)

Section PageFacts.
Import Trace ChatPage.

Lemma same_header_refl m : same_header m m.
Proof. by repeat split. Qed.

Lemma same_header_trans m1 m2 m3 :
  same_header m1 m2 -> same_header m2 m3 -> same_header m1 m3.
Proof. unfold same_header. intros (?&?&?&?&?) (?&?&?&?&?). repeat split; congruence. Qed.

Lemma update_message_header aiMessageId f prev :
  (forall m, same_header m (f m)) ->
  Forall2 same_header prev (update_message aiMessageId f prev).
Proof.
  intros Hf. unfold update_message.
  induction prev as [|m prev IH]; simpl; constructor; [|exact IH].
  destruct (String.eqb (id m) aiMessageId); [apply Hf | apply same_header_refl].
Qed.

Lemma Forall2_same_header_refl l : Forall2 same_header l l.
Proof. induction l; constructor; [apply same_header_refl | done]. Qed.

Lemma handle_header aiMessageId st e :
  Forall2 same_header (messages st) (messages (handle aiMessageId st e)).
Proof.
  destruct e; simpl; try apply Forall2_same_header_refl;
    apply update_message_header; intros m; by repeat split.
Qed.

Lemma Forall2_same_header_trans l1 l2 l3 :
  Forall2 same_header l1 l2 -> Forall2 same_header l2 l3 -> Forall2 same_header l1 l3.
Proof.
  intros H12. revert l3. induction H12 as [|a b l1 l2 Hab _ IH]; intros l3 H23.
  - inversion H23. constructor.
  - inversion H23 as [|? c ? l3' Hbc H23']; subst. constructor.
    + by eapply same_header_trans.
    + by apply IH.
Qed.

Lemma deliver_header aiMessageId events :
  forall st, Forall2 same_header (messages st) (messages (deliver aiMessageId events st)).
Proof.
  unfold deliver.
  induction events as [|e events IH]; intros st; simpl.
  - apply Forall2_same_header_refl.
  - eapply Forall2_same_header_trans; [apply handle_header | apply IH].
Qed.

Lemma deliver_length aiMessageId events st :
  length (messages (deliver aiMessageId events st)) = length (messages st).
Proof. symmetry. eapply Forall2_length, deliver_header. Qed.

Lemma deliver_app aiMessageId l1 l2 st :
  deliver aiMessageId (l1 ++ l2) st = deliver aiMessageId l2 (deliver aiMessageId l1 st).
Proof. unfold deliver. apply fold_left_app. Qed.

(** While no terminal callback has come, the page keeps loading. *)
Lemma deliver_keeps_loading aiMessageId events :
  Forall (fun e => is_terminal e = false) events ->
  forall st, isLoading (deliver aiMessageId events st) = isLoading st.
Proof.
  unfold deliver. induction 1 as [|e events He _ IH]; intros st; simpl; [done|].
  rewrite IH. by destruct e.
Qed.

(** All the calls leave of the placeholder that [start] appended is a message
    with its header, at the end of the list. *)
Lemma deliver_last_placeholder env st events :
  exists msgs ai,
    messages (deliver (uuid_ai env) events (start env st)) = msgs ++ [ai]
    /\ same_header (aiMessage env st) ai.
Proof.
  pose proof (deliver_header (uuid_ai env) events (start env st)) as H.
  change (messages (start env st))
    with ((messages st ++ [userMessage env st]) ++ [aiMessage env st]) in H.
  apply Forall2_app_inv_l in H as (k1 & k2 & _ & H2 & ->).
  inversion H2 as [|? ai ? k2' Hai Hnil]; subst. inversion Hnil; subst.
  by exists k1, ai.
Qed.

Lemma update_message_last aiMessageId f msgs m :
  id m = aiMessageId ->
  update_message aiMessageId f (msgs ++ [m])
  = update_message aiMessageId f msgs ++ [f m].
Proof.
  intros Hid. unfold update_message. rewrite map_app. simpl.
  by rewrite Hid, String.eqb_refl.
Qed.

End PageFacts.

Section ChatPageClaims.
Import Trace ChatPage Scenario.

(** C6, as the code has it.  An input whose trimmed text is empty is rejected
    before any state is created: the state is left as it is, so no user
    message and no assistant message is appended, and no request is issued.
    The length of the input is not checked: while no turn is loading, every
    input whose trimmed text is not empty is sent, trimmed, and the user
    message and the placeholder are appended. *)
Theorem blank_input_is_rejected env st :
  (JSString.is_empty (JSString.trim (inputValue st)) = true ->
   sendMessage env st = rejected st)
  /\ (JSString.is_empty (JSString.trim (inputValue st)) = false ->
      isLoading st = false ->
      issued (sendMessage env st)
      = Some {| message := JSString.trim (inputValue st);
                session_id := currentSessionId st;
                user_id := "user_001" |}
      /\ length (messages (state (sendMessage env st))) = length (messages st) + 2).
Proof.
  unfold sendMessage, rejects. split.
  - intros ->. reflexivity.
  - intros -> ->. simpl. split; [reflexivity|].
    rewrite deliver_length. simpl. rewrite !length_app. simpl. lia.
Qed.

Lemma blank_input_is_rejected_witness :
  sendMessage greeting (page "   " false) = rejected (page "   " false)
  /\ issued (sendMessage greeting (page long_input false))
     = Some {| message := long_input; session_id := "s1"; user_id := "user_001" |}
  /\ length (messages (state (sendMessage greeting (page long_input false)))) = 2.
Proof.
  split.
  - apply (proj1 (blank_input_is_rejected greeting (page "   " false))).
    vm_compute. reflexivity.
  - assert (Ht : JSString.trim long_input = long_input) by (vm_compute; reflexivity).
    destruct (proj2 (blank_input_is_rejected greeting (page long_input false)))
      as [Hreq Hlen]; [vm_compute; reflexivity | reflexivity |].
    split; [|exact Hlen].
    rewrite Hreq. simpl. by rewrite Ht.
Defined.

(** C6, as the claim has it, fails: an input of 2001 characters, over the
    2000 the deployment sets as the maximum, is accepted: the request is
    issued with the whole text and both messages are appended. *)
Lemma over_long_input_is_accepted :
  String.length long_input = S MAX_MESSAGE_LENGTH
  /\ issued (sendMessage greeting (page long_input false))
     = Some {| message := long_input; session_id := "s1"; user_id := "user_001" |}
  /\ map type (messages (state (sendMessage greeting (page long_input false))))
     = [user; assistant]
  /\ sendMessage greeting (page long_input false) <> rejected (page long_input false).
Proof.
  split; [vm_compute; reflexivity|].
  split; [vm_compute; reflexivity|].
  split; [vm_compute; reflexivity|].
  intros H. apply (f_equal issued) in H. vm_compute in H. discriminate.
Qed.

(** C7, as the code has it.  In every turn in which [onError] is invoked, the
    placeholder of the answer ends as the fixed apology, closed
    ([isStreaming: false]), whatever text the chunks had given it. *)
Theorem error_replaces_partial_text env st error :
  rejects st = false ->
  In (OnError error) (ChatService.sendMessageStream (fetch env) (request env st)) ->
  last (messages (state (sendMessage env st)))
  = Some (close_with apology (aiMessage env st)).
Proof.
  intros Hacc Hin. unfold sendMessage. rewrite Hacc. simpl.
  destruct (sendMessageStream_shape (fetch env) (request env st))
    as (pre & ending & Heq & Hpre).
  rewrite Heq in Hin |- *.
  assert (Hend : exists e, closing pre ending = [OnError e]).
  { apply in_app_or in Hin as [Hin|Hin].
    - apply (not_terminal_in _ _ Hpre) in Hin. discriminate.
    - destruct ending; simpl in Hin; [done | | by eauto].
      destruct Hin as [Hin|[]]. discriminate. }
  destruct Hend as [e ->].
  rewrite deliver_app. simpl.
  destruct (deliver_last_placeholder env st pre) as (msgs & ai & -> & Hai).
  destruct Hai as (Hid & Hty & Hts & Hsid & Herr).
  rewrite update_message_last by exact Hid.
  rewrite last_snoc. f_equal.
  unfold close_with. by rewrite Hid, Hty, Hts, Hsid, Herr.
Qed.

Lemma error_replaces_partial_text_witness :
  rejects (page "hello" false) = false
  /\ In (OnError (Str "provider failed"))
        (ChatService.sendMessageStream (fetch failing) (request failing (page "hello" false)))
  /\ last (messages (state (sendMessage failing (page "hello" false))))
     = Some (close_with apology (aiMessage failing (page "hello" false))).
Proof.
  assert (H1 : rejects (page "hello" false) = false) by (vm_compute; reflexivity).
  assert (H2 : In (OnError (Str "provider failed"))
        (ChatService.sendMessageStream (fetch failing) (request failing (page "hello" false)))).
  { vm_compute. right. left. reflexivity. }
  split; [exact H1|]. split; [exact H2|].
  exact (error_replaces_partial_text failing (page "hello" false) _ H1 H2).
Defined.

(** A turn that completes closes the placeholder with the text passed to
    [onComplete]. *)
Lemma complete_closes_placeholder env st finalText :
  rejects st = false ->
  In (OnComplete finalText) (ChatService.sendMessageStream (fetch env) (request env st)) ->
  last (messages (state (sendMessage env st)))
  = Some (close_with finalText (aiMessage env st)).
Proof.
  intros Hacc Hin. unfold sendMessage. rewrite Hacc. simpl.
  destruct (sendMessageStream_shape (fetch env) (request env st))
    as (pre & ending & Heq & Hpre).
  rewrite Heq in Hin |- *.
  assert (Hend : closing pre ending = [OnComplete finalText]).
  { apply in_app_or in Hin as [Hin|Hin].
    - apply (not_terminal_in _ _ Hpre) in Hin. discriminate.
    - destruct ending; simpl in Hin; [done | | ].
      + destruct Hin as [Hin|[]]. simpl. by rewrite Hin.
      + destruct Hin as [Hin|[]]. discriminate. }
  rewrite Hend, deliver_app. simpl.
  destruct (deliver_last_placeholder env st pre) as (msgs & ai & -> & Hai).
  destruct Hai as (Hid & Hty & Hts & Hsid & Herr).
  rewrite update_message_last by exact Hid.
  rewrite last_snoc. f_equal.
  unfold close_with. by rewrite Hid, Hty, Hts, Hsid, Herr.
Qed.

(** C7, as the claim has it, fails: the server streams "Hi" and then an error
    line; after the chunk the placeholder reads "Hi", after the error it
    reads the apology and "Hi" is gone. *)
Lemma partial_text_is_not_preserved :
  ChatService.sendMessageStream (fetch failing) (request failing (page "hello" false))
  = [OnChunk (Str "Hi"); OnError (Str "provider failed")]
  /\ map content
       (messages (deliver "a1" [OnChunk (Str "Hi")] (start failing (page "hello" false))))
     = ["hello"; "Hi"]
  /\ map content (messages (state (sendMessage failing (page "hello" false))))
     = ["hello"; apology].
Proof. repeat split; vm_compute; reflexivity. Qed.

(** C8, as the code has it.  While a turn is in flight, that is after
    [sendMessage] has started it and before its terminal callback, the page
    renders with the loading flag up, and the [sendMessage] of such a render
    returns at its guard, whatever has been typed meanwhile and whenever it
    is called: it raises no error and no toast, issues no request, appends no
    second placeholder and leaves the state, the message list included, as it
    is. *)
Theorem turn_in_flight_is_rejected_silently env st pre post typed env' current :
  rejects st = false ->
  ChatService.sendMessageStream (fetch env) (request env st) = pre ++ post ->
  Forall (fun e => is_terminal e = false) pre ->
  let mid := setInputValue typed (deliver (uuid_ai env) pre (start env st)) in
  isLoading mid = true
  /\ sendMessage env' mid = {| state := mid; issued := None; notices := [] |}
  /\ Render.sendMessageFrom env' mid current
     = {| state := current; issued := None; notices := [] |}.
Proof.
  intros _ _ Hpre mid.
  assert (Hload : isLoading mid = true).
  { subst mid. simpl. by rewrite deliver_keeps_loading. }
  assert (Hrej : rejects mid = true).
  { unfold rejects. rewrite Hload. apply orb_true_r. }
  split; [exact Hload|]. split.
  - unfold sendMessage. by rewrite Hrej.
  - unfold Render.sendMessageFrom. by rewrite Hrej.
Qed.

Lemma turn_in_flight_is_rejected_silently_witness :
  let mid := setInputValue "again"
               (deliver "a1" [OnChunk (Str "Hi")] (start greeting (page "hello" false))) in
  map content (messages mid) = ["hello"; "Hi"]
  /\ isLoading mid = true
  /\ sendMessage Render.second_call mid = {| state := mid; issued := None; notices := [] |}
  /\ Render.sendMessageFrom Render.second_call mid mid
     = {| state := mid; issued := None; notices := [] |}.
Proof.
  split; [vm_compute; reflexivity|].
  apply (turn_in_flight_is_rejected_silently greeting (page "hello" false)
           [OnChunk (Str "Hi")] [OnChunk (Str " there"); OnComplete "Hi there"]
           "again" Render.second_call).
  - vm_compute. reflexivity.
  - vm_compute. reflexivity.
  - repeat constructor.
Defined.

(** C8, as the claim has it, fails twice.  The second call is not rejected
    with an error: it returns as the call with a blank input does, with no
    toast and nothing that names the session as busy.  And the guard reads
    the loading flag of its own render: the [sendMessage] of the render from
    before the turn, called while the turn is in flight, passes the guard,
    appends a second user message and a second placeholder and issues a
    second request. *)
Lemma second_turn_is_not_reported_busy :
  let mid := deliver "a1" [OnChunk (Str "Hi")] (start greeting (page "hello" false)) in
  sendMessage Render.second_call (setInputValue "again" mid)
  = {| state := setInputValue "again" mid; issued := None; notices := [] |}
  /\ sendMessage Render.second_call (page "   " false)
     = {| state := page "   " false; issued := None; notices := [] |}
  /\ map content (messages mid) = ["hello"; "Hi"]
  /\ isLoading mid = true
  /\ rejects (page "hello" false) = false
  /\ map (fun m => (id m, content m))
       (messages (Render.startFrom Render.second_call (page "hello" false) mid))
     = [("u1", "hello"); ("a1", "Hi"); ("u2", "hello"); ("a2", EmptyString)]
  /\ issued (Render.sendMessageFrom Render.second_call (page "hello" false) mid)
     = Some {| message := "hello"; session_id := "s1"; user_id := "user_001" |}.
Proof. repeat split; vm_compute; reflexivity. Qed.


End ChatPageClaims.

(** ** The provider registry *)

Section RegistryFacts.
Import ProviderRegistry.

Lemma set_current_idem b b' c : set_current b (set_current b' c) = set_current b c.
Proof. reflexivity. Qed.

(** What a successful [switch] has checked and built. *)
Lemma switch_success providerKey modelId reg c' reg' :
  switch providerKey modelId reg = inr (c', reg') ->
  exists c models,
    configs reg !! providerKey = Some c
    /\ is_configured c = true
    /\ availableModels providerKey reg = inr models
    /\ modelId ∈ models
    /\ c' = set_current true c
    /\ reg' = {| configs := <[providerKey := c']> (set_current false <$> configs reg);
                 supported := supported reg |}.
Proof.
  unfold switch. intros H.
  destruct (configs reg !! providerKey) as [c|] eqn:Hc; [|discriminate].
  destruct (is_configured c) eqn:Hconf; simpl in H; [|discriminate].
  destruct (availableModels providerKey reg) as [e|models] eqn:Hm; [discriminate|].
  destruct (bool_decide (modelId ∈ models)) eqn:Hin; [|discriminate].
  apply bool_decide_eq_true in Hin.
  injection H as <- <-. by exists c, models.
Qed.

Lemma switch_sets_one_current providerKey modelId reg c' reg' :
  switch providerKey modelId reg = inr (c', reg') -> exactly_one_current reg'.
Proof.
  intros H. apply switch_success in H as (c & models & Hc & _ & _ & _ & -> & ->).
  exists providerKey. simpl. split.
  - exists (set_current true c). by rewrite lookup_insert_eq.
  - intros k' c0 Hk' Hcur.
    destruct (decide (providerKey = k')) as [|Hne]; [done|].
    rewrite lookup_insert_ne, lookup_fmap in Hk' by done.
    destruct (configs reg !! k') as [c1|]; simpl in Hk'; [|discriminate].
    injection Hk' as <-. discriminate.
Qed.

Lemma switch_idempotent providerKey modelId reg c' reg' :
  switch providerKey modelId reg = inr (c', reg') ->
  switch providerKey modelId reg' = inr (c', reg').
Proof.
  intros H. apply switch_success in H as (c & models & Hc & Hconf & Hm & Hin & -> & ->).
  unfold switch, availableModels in *. simpl.
  rewrite lookup_insert_eq. simpl. rewrite Hconf. simpl.
  rewrite Hc in Hm.
  assert (Hmodels : match supported reg !! providerKey with
                    | Some models0 => inr models0
                    | None => inr []
                    end = (inr models : Error + list string)).
  { destruct (supported reg !! providerKey); congruence. }
  rewrite Hmodels. rewrite bool_decide_eq_true_2 by done.
  do 3 f_equal. apply map_eq. intros k.
  destruct (decide (providerKey = k)) as [->|Hne].
  - by rewrite !lookup_insert_eq.
  - rewrite !lookup_insert_ne by done.
    rewrite !lookup_fmap, lookup_insert_ne by done.
    rewrite lookup_fmap. by destruct (configs reg !! k).
Qed.

Lemma after_switch_keeps_one_current providerKey modelId reg :
  exactly_one_current reg -> exactly_one_current (after_switch providerKey modelId reg).
Proof.
  intros Hone. unfold after_switch.
  destruct (switch providerKey modelId reg) as [e|[c' reg']] eqn:H; [done|].
  by eapply switch_sets_one_current.
Qed.

Lemma after_calls_keeps_one_current calls :
  forall reg, exactly_one_current reg -> exactly_one_current (after_calls calls reg).
Proof.
  unfold after_calls.
  induction calls as [|[k m] calls IH]; intros reg Hone; simpl; [done|].
  apply IH. by apply after_switch_keeps_one_current.
Qed.

(** With exactly one configuration current, [current()] returns it. *)
Lemma current_is_the_one reg :
  exactly_one_current reg ->
  exists k c, current reg = inr (k, c)
              /\ configs reg !! k = Some c /\ is_current c = true
              /\ forall k' c', configs reg !! k' = Some c' -> is_current c' = true -> k' = k.
Proof.
  intros (k & (c & Hk & Hc) & Huniq). unfold current.
  destruct (map_to_list (filter (fun kc => is_current kc.2 = true) (configs reg)))
    as [|[k0 c0] rest] eqn:Hl.
  - assert (Hin : (k, c) ∈ map_to_list
                    (filter (fun kc => is_current kc.2 = true) (configs reg))).
    { apply elem_of_map_to_list, map_lookup_filter_Some. by split. }
    rewrite Hl in Hin. by apply elem_of_nil in Hin.
  - assert (Hin : (k0, c0) ∈ map_to_list
                    (filter (fun kc => is_current kc.2 = true) (configs reg))).
    { rewrite Hl. apply list_elem_of_here. }
    apply elem_of_map_to_list, map_lookup_filter_Some in Hin as [H0 Hc0].
    simpl in Hc0. pose proof (Huniq k0 c0 H0 Hc0) as ->.
    exists k, c0. by repeat split.
Qed.

(** C9.  From a registry with exactly one current provider: a [switch] that
    succeeds, called again with the same provider key and model, succeeds
    again, returns the same configuration and leaves the same registry, in
    which exactly one configuration is current; and after every sequence of
    [switch] calls, failed ones among them, exactly one configuration is
    current. *)
Theorem switch_twice_keeps_one_current reg providerKey modelId :
  exactly_one_current reg ->
  (forall c reg1,
      switch providerKey modelId reg = inr (c, reg1) ->
      switch providerKey modelId reg1 = inr (c, reg1)
      /\ after_calls [(providerKey, modelId); (providerKey, modelId)] reg = reg1
      /\ exactly_one_current reg1)
  /\ (forall calls, exactly_one_current (after_calls calls reg)).
Proof.
  intros Hone. split.
  - intros c reg1 H. pose proof (switch_idempotent _ _ _ _ _ H) as H2.
    split; [exact H2|]. split; [|by eapply switch_sets_one_current].
    unfold after_calls, after_switch. simpl. by rewrite H, H2.
  - intros calls. by apply after_calls_keeps_one_current.
Qed.

Lemma sample_has_one_current : exactly_one_current sample.
Proof.
  exists "openai". split.
  - eexists. split; [vm_compute; reflexivity | reflexivity].
  - intros k' c' Hk' Hcur. unfold sample in Hk'. simpl in Hk'.
    destruct (decide (k' = "openai")) as [|H1]; [done|].
    rewrite lookup_insert_ne in Hk' by done.
    destruct (decide (k' = "gemini")) as [->|H2].
    { rewrite lookup_insert_eq in Hk'. injection Hk' as <-. discriminate. }
    rewrite lookup_insert_ne in Hk' by done.
    destruct (decide (k' = "deepseek")) as [->|H3].
    { rewrite lookup_insert_eq in Hk'. injection Hk' as <-. discriminate. }
    rewrite lookup_insert_ne, lookup_empty in Hk' by done. discriminate.
Qed.

Lemma switch_twice_keeps_one_current_witness :
  exactly_one_current sample
  /\ (exists c reg1,
         switch "gemini" "gemini-pro" sample = inr (c, reg1)
         /\ switch "gemini" "gemini-pro" reg1 = inr (c, reg1)
         /\ is_current c = true
         /\ exactly_one_current reg1)
  /\ exactly_one_current
       (after_calls [("unknown_provider", "x"); ("deepseek", "deepseek-chat");
                     ("gemini", "gpt-4"); ("gemini", "gemini-pro")] sample).
Proof.
  split; [exact sample_has_one_current|].
  destruct (switch_twice_keeps_one_current sample "gemini" "gemini-pro"
              sample_has_one_current) as [Htwice Hcalls].
  split; [|apply Hcalls].
  destruct (switch "gemini" "gemini-pro" sample) as [e|[c reg1]] eqn:H.
  { vm_compute in H. discriminate. }
  destruct (Htwice c reg1 eq_refl) as (H2 & _ & Hone).
  exists c, reg1. split; [reflexivity|]. split; [exact H2|]. split; [|exact Hone].
  apply switch_success in H as (c0 & ? & _ & _ & _ & _ & -> & _). reflexivity.
Defined.

End RegistryFacts.

(** ** What a server that keeps to the protocol gets *)

Section ProtocolStream.
Import JSString Trace ChatService Wire Protocol.

Lemma rev_app_append a : forall b c,
  String.rev_app (a +:+ b) c = String.rev_app b (String.rev_app a c).
Proof.
  induction a as [|x a IH]; intros b c; [reflexivity|].
  change (String x a +:+ b) with (String x (a +:+ b)). simpl. apply IH.
Qed.

Lemma rev_app_rev_app a : forall b c,
  String.rev_app (String.rev_app a b) c = String.rev_app b (a +:+ c).
Proof.
  induction a as [|x a IH]; intros b c; [reflexivity|].
  simpl. rewrite IH. reflexivity.
Qed.

Lemma rev_rev a : String.rev (String.rev a) = a.
Proof. unfold String.rev. rewrite rev_app_rev_app. simpl. apply append_nil_r. Qed.

Lemma plain_char_spec c :
  plain_char c = true ->
  Ascii.eqb c dquote = false /\ Ascii.eqb c "\" = false
  /\ (byte c <? 32)%N = false /\ (byte c =? 10)%N = false.
Proof.
  unfold plain_char. intros H.
  apply andb_true_iff in H as [H H92]. apply andb_true_iff in H as [H32 H34].
  apply negb_true_iff in H92, H34. apply N.leb_le in H32.
  apply N.eqb_neq in H92, H34.
  repeat split.
  - apply Ascii.eqb_neq. intros ->. by apply H34.
  - apply Ascii.eqb_neq. intros ->. by apply H92.
  - apply N.ltb_ge. exact H32.
  - apply N.eqb_neq. lia.
Qed.

(** A plain text between quotes is read back as it is. *)
Lemma parse_chars_plain t : forall acc rest,
  plain t = true ->
  JSON.parse_chars (t +:+ String dquote rest) acc
  = Some (String.rev (String.rev_app t acc), rest).
Proof.
  induction t as [|c t IH]; intros acc rest Hp.
  - reflexivity.
  - simpl in Hp. apply andb_true_iff in Hp as [Hc Hp].
    destruct (plain_char_spec c Hc) as (Hq & Hb & Hctl & _).
    change (String c t +:+ String dquote rest) with (String c (t +:+ String dquote rest)).
    simpl. rewrite Hq, Hb, Hctl. by apply IH.
Qed.

Lemma parse_string_plain t rest :
  plain t = true ->
  JSON.parse_chars (t +:+ String dquote rest) EmptyString = Some (t, rest).
Proof.
  intros Hp. rewrite parse_chars_plain by done.
  change (String.rev_app t EmptyString) with (String.rev t). by rewrite rev_rev.
Qed.

Lemma split_go_one_line t : forall cur,
  no_line_feed t = true -> split_go cur t = [String.rev (String.rev_app t cur)].
Proof.
  induction t as [|c t IH]; intros cur Hp; [reflexivity|].
  simpl in Hp. apply andb_true_iff in Hp as [Hc Hp]. apply negb_true_iff in Hc.
  simpl. rewrite Hc. by apply IH.
Qed.

Lemma no_line_feed_app a b :
  no_line_feed (a +:+ b) = no_line_feed a && no_line_feed b.
Proof.
  induction a as [|c a IH]; [done|].
  change (String c a +:+ b) with (String c (a +:+ b)). simpl.
  by rewrite IH, andb_assoc.
Qed.

Lemma plain_no_line_feed t : plain t = true -> no_line_feed t = true.
Proof.
  induction t as [|c t IH]; intros Hp; [done|].
  simpl in Hp. apply andb_true_iff in Hp as [Hc Hp].
  destruct (plain_char_spec c Hc) as (_ & _ & _ & Hlf).
  simpl. by rewrite Hlf, IH.
Qed.

Lemma append_cons c a b : String c a +:+ b = String c (a +:+ b).
Proof. reflexivity. Qed.

Lemma append_nil_l b : EmptyString +:+ b = b.
Proof. reflexivity. Qed.

Lemma content_line_unfold t :
  content_line t
  = "{" +:+ quoted "type" +:+ ":" +:+ quoted "content" +:+ "," +:+ quoted "content"
        +:+ ":" +:+ String dquote (t +:+ String dquote "}").
Proof.
  unfold content_line.
  assert (H : quoted t +:+ "}" = String dquote (t +:+ String dquote "}")).
  { unfold quoted.
    change (String dquote (t +:+ String dquote EmptyString) +:+ "}")
      with (String dquote ((t +:+ String dquote EmptyString) +:+ "}")).
    by rewrite append_assoc. }
  by rewrite H.
Qed.

Lemma parse_content_line t :
  plain t = true ->
  JSON.parse (content_line t) = Some (Object [("type", Str "content"); ("content", Str t)]).
Proof.
  intros Hp. unfold JSON.parse.
  assert (Hfuel : exists k, S (2 * String.length (content_line t)) = S (S (S (S k)))).
  { exists (2 * String.length (content_line t) - 3).
    rewrite content_line_unfold. unfold quoted.
    rewrite !append_cons, !append_nil_l. simpl. lia. }
  destruct Hfuel as [k ->].
  rewrite content_line_unfold. unfold quoted.
  rewrite !append_cons, !append_nil_l.
  simpl. rewrite (parse_string_plain t "}" Hp).
  reflexivity.
Qed.


Lemma strip_after_brace w2 w3 q :
  (forall d, w2 "}"%char d = false) -> (forall d e, w3 "}"%char d e = false) ->
  strip w2 w3 (String "}" q) = String "}" q.
Proof.
  intros H2 H3. simpl. destruct q as [|d [|e q]]; [done | by rewrite H2 |].
  by rewrite H2, H3.
Qed.

Lemma rev_app_not_empty a : forall c b, is_empty (String.rev_app a (String c b)) = false.
Proof. induction a as [|x a IH]; intros c b; [done|]. simpl. apply IH. Qed.

Lemma content_line_not_blank t : is_empty (trim (content_line t)) = false.
Proof.
  unfold trim.
  assert (Hstart : trimStart (content_line t) = content_line t).
  { rewrite content_line_unfold. unfold quoted. rewrite !append_cons, !append_nil_l.
    reflexivity. }
  rewrite Hstart. unfold trimEnd.
  assert (Hrev : exists q, String.rev (content_line t) = String "}" q).
  { rewrite content_line_unfold. unfold String.rev, quoted.
    rewrite !append_cons, !append_nil_l. simpl.
    rewrite rev_app_append. simpl. eauto. }
  destruct Hrev as [q ->].
  rewrite strip_after_brace.
  - unfold String.rev. simpl. apply rev_app_not_empty.
  - intros d. unfold ws2. simpl. apply andb_false_r.
  - intros d e. unfold ws3. simpl. by rewrite !andb_false_r.
Qed.


(** A content line of a plain text delivers the text and nothing else. *)
Lemma process_line_content t fc :
  plain t = true ->
  process_line (content_line t) fc = ([OnChunk (Str t)], Next (fc +:+ t)).
Proof.
  intros Hp. unfold process_line.
  by rewrite content_line_not_blank, parse_content_line.
Qed.

(** A content line has no line feed in it: [split] keeps it whole. *)
Lemma split_lines_content_line t rest :
  plain t = true ->
  split_lines (content_line t +:+ LF +:+ rest) = content_line t :: split_lines rest.
Proof.
  intros Hp. rewrite split_lines_line_feed.
  unfold split_lines at 1. rewrite split_go_one_line.
  - change (String.rev_app (content_line t) EmptyString) with (String.rev (content_line t)).
    by rewrite rev_rev.
  - unfold content_line, quoted. rewrite !no_line_feed_app. simpl.
    rewrite no_line_feed_app, plain_no_line_feed by done. reflexivity.
Qed.

Lemma process_read_of deltas : forall fc,
  Forall (fun t => plain t = true) deltas ->
  process_lines (split_lines (read_of deltas)) fc
  = (map (fun t => OnChunk (Str t)) deltas, Next (fc +:+ concat_texts deltas)).
Proof.
  induction deltas as [|t deltas IH]; intros fc Hp.
  - simpl. by rewrite append_nil_r.
  - inversion Hp as [|? ? Ht Hrest]; subst.
    cbn [read_of]. rewrite split_lines_content_line by done.
    rewrite process_lines_cons, process_line_content by done.
    rewrite IH by done. cbn [fst snd concat_texts map app].
    by rewrite append_assoc.
Qed.

Lemma concat_texts_app a b : concat_texts (a ++ b) = concat_texts a +:+ concat_texts b.
Proof.
  induction a as [|t a IH]; [done|].
  cbn [app concat_texts]. by rewrite IH, append_assoc.
Qed.

Lemma read_loop_protocol groups ending : forall fc,
  Forall (Forall (fun t => plain t = true)) groups ->
  read_loop (map read_of groups ++ [done_line +:+ LF]) ending fc
  = (map (fun t => OnChunk (Str t)) (concat groups)
       ++ [OnComplete (fc +:+ concat_texts (concat groups))], Return).
Proof.
  induction groups as [|g groups IH]; intros fc Hp.
  - simpl. by rewrite append_nil_r.
  - inversion Hp as [|? ? Hg Hrest]; subst.
    cbn [map app read_loop]. rewrite process_read_of by done.
    rewrite IH by done. cbn [concat].
    by rewrite map_app, concat_texts_app, <- app_assoc, append_assoc.
Qed.

(** A server that keeps to the protocol is heard in full: when every
    read holds whole content lines of plain texts, however they are grouped
    into reads, and the [done] line follows, [onChunk] is invoked once for
    every delta, with its text, in the order sent, and [onComplete] receives
    their concatenation; nothing is logged. *)
Theorem protocol_stream_is_delivered_in_order groups ending request :
  Forall (Forall (fun t => plain t = true)) groups ->
  sendMessageStream (serve (map read_of groups ++ [done_line +:+ LF]) ending) request
  = map (fun t => OnChunk (Str t)) (concat groups)
    ++ [OnComplete (concat_texts (concat groups))].
Proof.
  intros Hp. unfold sendMessageStream, serve, try_block. simpl.
  by rewrite read_loop_protocol.
Qed.

Lemma protocol_stream_is_delivered_in_order_witness :
  Forall (Forall (fun t => plain t = true)) [["Hi"; " there"]; []; ["!"]]
  /\ sendMessageStream
       (serve (map read_of [["Hi"; " there"]; []; ["!"]] ++ [done_line +:+ LF]) EndOfStream)
       hello
     = [OnChunk (Str "Hi"); OnChunk (Str " there"); OnChunk (Str "!");
        OnComplete "Hi there!"].
Proof.
  assert (H : Forall (Forall (fun t => plain t = true)) [["Hi"; " there"]; []; ["!"]]).
  { repeat constructor. }
  split; [exact H|].
  exact (protocol_stream_is_delivered_in_order _ EndOfStream hello H).
Defined.

End ProtocolStream.

(** ** Whole turns *)

Section Turns.
Import Trace ChatPage Turn Scenario.

Lemma update_message_fresh aiMessageId f (msgs : list ChatMessage) :
  aiMessageId ∉ id <$> msgs -> update_message aiMessageId f msgs = msgs.
Proof.
  unfold update_message. induction msgs as [|m msgs IH]; intros Hfresh; [done|].
  rewrite fmap_cons in Hfresh. apply not_elem_of_cons in Hfresh as [Hne Hrest].
  simpl. rewrite IH by done.
  destruct (String.eqb_spec (id m) aiMessageId); [congruence | done].
Qed.

Lemma update_message_placeholder aiMessageId f (msgs : list ChatMessage) u ai :
  aiMessageId ∉ id <$> msgs -> id u <> aiMessageId -> id ai = aiMessageId ->
  update_message aiMessageId f (msgs ++ [u; ai]) = msgs ++ [u; f ai].
Proof.
  intros Hfresh Hu Hai.
  pose proof (update_message_fresh aiMessageId f msgs Hfresh) as Hm.
  unfold update_message in *. rewrite map_app, Hm. simpl.
  rewrite Hai, String.eqb_refl.
  by destruct (String.eqb_spec (id u) aiMessageId).
Qed.

(** While no terminal callback has come, the list is the earlier messages,
    the user message and the placeholder, grown by the texts of the chunks. *)
Lemma deliver_chunks aiMessageId (msgs : list ChatMessage) u pre :
  aiMessageId ∉ id <$> msgs -> id u <> aiMessageId ->
  Forall (fun e => is_terminal e = false) pre ->
  forall st ai,
    messages st = msgs ++ [u; ai] -> id ai = aiMessageId ->
    messages (deliver aiMessageId pre st)
    = msgs ++ [u; with_content (content ai +:+ text_of (chunks pre)) ai].
Proof.
  intros Hfresh Hu. unfold deliver.
  induction 1 as [|e pre He _ IH]; intros st ai Hst Hai; simpl.
  - rewrite append_nil_r, Hst. by destruct ai.
  - destruct e as [c| | | |]; try discriminate; simpl.
    + rewrite (IH (onChunk aiMessageId c st) (append_chunk c ai)).
      * simpl. by rewrite append_assoc.
      * simpl. rewrite Hst. by apply update_message_placeholder.
      * exact Hai.
    + by apply IH.
    + by apply IH.
Qed.

Lemma deliver_keeps_input aiMessageId events :
  forall st,
    inputValue (deliver aiMessageId events st) = inputValue st
    /\ currentSessionId (deliver aiMessageId events st) = currentSessionId st.
Proof.
  unfold deliver. induction events as [|e events IH]; intros st; simpl; [done|].
  destruct (IH (handle aiMessageId st e)) as [-> ->]. by destruct e.
Qed.

(** The messages a turn leaves, when the id drawn for the placeholder is
    new. *)
Lemma sendMessage_messages env st :
  rejects st = false ->
  uuid_ai env ∉ id <$> messages st ->
  uuid_user env <> uuid_ai env ->
  exists pre ending,
    ChatService.sendMessageStream (fetch env) (request env st) = pre ++ closing pre ending
    /\ Forall (fun e => is_terminal e = false) pre
    /\ messages (state (sendMessage env st))
       = messages st ++ [userMessage env st; placeholder_after pre ending (aiMessage env st)].
Proof.
  intros Hacc Hfresh Hne.
  destruct (sendMessageStream_shape (fetch env) (request env st))
    as (pre & ending & Heq & Hpre).
  exists pre, ending. split; [exact Heq|]. split; [exact Hpre|].
  unfold sendMessage. rewrite Hacc, Heq, deliver_app. simpl.
  assert (Hmid : messages (deliver (uuid_ai env) pre (start env st))
                 = messages st ++ [userMessage env st;
                                   with_content (text_of (chunks pre)) (aiMessage env st)]).
  { rewrite (deliver_chunks (uuid_ai env) (messages st) (userMessage env st) pre
               Hfresh Hne Hpre (start env st) (aiMessage env st)); try done.
    simpl. by rewrite <- app_assoc. }
  destruct ending; simpl.
  - exact Hmid.
  - rewrite Hmid. by rewrite update_message_placeholder.
  - rewrite Hmid. by rewrite update_message_placeholder.
Qed.


(** A turn that is accepted, with an id for its placeholder that no
    message of the list has, leaves the earlier messages as they are and
    appends two: the user message with the trimmed input, and the
    placeholder, which holds the text of the chunks and is still streaming
    when no terminal callback came, is closed with that text when
    [onComplete] came, and is closed with the apology when [onError] came. *)
Theorem turn_appends_user_message_and_placeholder env st :
  rejects st = false ->
  uuid_ai env ∉ id <$> messages st ->
  uuid_user env <> uuid_ai env ->
  exists pre ending,
    ChatService.sendMessageStream (fetch env) (request env st) = pre ++ closing pre ending
    /\ Forall (fun e => is_terminal e = false) pre
    /\ messages (state (sendMessage env st))
       = messages st ++ [userMessage env st; placeholder_after pre ending (aiMessage env st)].
Proof. apply sendMessage_messages. Qed.

Lemma turn_appends_user_message_and_placeholder_witness :
  rejects (page "hello" false) = false
  /\ (uuid_ai greeting ∉ id <$> messages (page "hello" false))
  /\ uuid_user greeting <> uuid_ai greeting
  /\ exists pre ending,
       ChatService.sendMessageStream (fetch greeting) (request greeting (page "hello" false))
       = pre ++ closing pre ending
       /\ Forall (fun e => is_terminal e = false) pre
       /\ messages (state (sendMessage greeting (page "hello" false)))
          = messages (page "hello" false)
            ++ [userMessage greeting (page "hello" false);
                placeholder_after pre ending (aiMessage greeting (page "hello" false))].
Proof.
  assert (H1 : rejects (page "hello" false) = false) by (vm_compute; reflexivity).
  assert (H2 : uuid_ai greeting ∉ id <$> messages (page "hello" false))
    by apply not_elem_of_nil.
  assert (H3 : uuid_user greeting <> uuid_ai greeting) by discriminate.
  split; [exact H1|]. split; [exact H2|]. split; [exact H3|].
  exact (turn_appends_user_message_and_placeholder greeting (page "hello" false) H1 H2 H3).
Defined.

Lemma toasts_app l1 l2 : toasts (l1 ++ l2) = toasts l1 ++ toasts l2.
Proof. unfold toasts. apply flat_map_app. Qed.

Lemma toasts_not_terminal pre :
  Forall (fun e => is_terminal e = false) pre -> toasts pre = [] /\ has_error pre = false.
Proof.
  induction 1 as [|e pre He _ [IH1 IH2]]; [done|].
  unfold toasts, has_error in *. simpl. rewrite IH1, IH2. by destruct e.
Qed.

Lemma has_error_app l1 l2 : has_error (l1 ++ l2) = has_error l1 || has_error l2.
Proof. unfold has_error. apply existsb_app. Qed.

(** However the stream of an accepted turn ends, [sendMessage] leaves the
    page ready for the next turn: the loading flag is down, the input is
    empty and the session is the same; and it raises the failure toast once
    when [onError] was invoked and never otherwise. *)
Theorem turn_leaves_page_ready env st :
  rejects st = false ->
  isLoading (state (sendMessage env st)) = false
  /\ inputValue (state (sendMessage env st)) = EmptyString
  /\ currentSessionId (state (sendMessage env st)) = currentSessionId st
  /\ notices (sendMessage env st)
     = (if has_error (ChatService.sendMessageStream (fetch env) (request env st))
        then [send_failed] else []).
Proof.
  intros Hacc. unfold sendMessage. rewrite Hacc. simpl.
  destruct (deliver_keeps_input (uuid_ai env)
              (ChatService.sendMessageStream (fetch env) (request env st)) (start env st))
    as [-> ->].
  repeat split.
  destruct (sendMessageStream_shape (fetch env) (request env st))
    as (pre & ending & -> & Hpre).
  destruct (toasts_not_terminal pre Hpre) as [Ht He].
  rewrite toasts_app, has_error_app, Ht, He. by destruct ending.
Qed.

Lemma turn_leaves_page_ready_witness :
  rejects (page "hello" false) = false
  /\ isLoading (state (sendMessage failing (page "hello" false))) = false
  /\ inputValue (state (sendMessage failing (page "hello" false))) = EmptyString
  /\ notices (sendMessage failing (page "hello" false)) = [send_failed].
Proof.
  assert (H : rejects (page "hello" false) = false) by (vm_compute; reflexivity).
  destruct (turn_leaves_page_ready failing (page "hello" false) H) as (H1 & H2 & _ & H4).
  split; [exact H|]. split; [exact H1|]. split; [exact H2|].
  rewrite H4. vm_compute. reflexivity.
Defined.

End Turns.

Section PlaceholderChunks.
Import Trace ChatPage Turn Scenario.

(** C10. [onChunk] with the delta [s] rewrites the messages whose [id] is the
    placeholder's, to the same message with [s] appended to its content, and
    leaves every other message as it is, at its place.  In a turn, where the
    id drawn for the placeholder is new, that is one message: after the
    chunks [pre] the placeholder is the last message and holds their text,
    and the next delta changes the list at that one index, where the content
    becomes that text followed by [s]; the input, the loading flag and the
    session stay. *)
Theorem chunk_is_appended_to_the_placeholder env st pre s :
  rejects st = false ->
  uuid_ai env ∉ id <$> messages st ->
  uuid_user env <> uuid_ai env ->
  Forall (fun e => is_terminal e = false) pre ->
  let before := deliver (uuid_ai env) pre (start env st) in
  let after := onChunk (uuid_ai env) (Str s) before in
  let placeholder := with_content (text_of (chunks pre)) (aiMessage env st) in
  (forall i,
      messages after !! i
      = (fun msg => if String.eqb (id msg) (uuid_ai env)
                    then with_content (content msg +:+ s) msg
                    else msg) <$> (messages before !! i))
  /\ messages before = messages st ++ [userMessage env st; placeholder]
  /\ messages after
     = messages st
       ++ [userMessage env st; with_content (text_of (chunks pre) +:+ s) (aiMessage env st)]
  /\ messages after
     = <[S (length (messages st)) := with_content (text_of (chunks pre) +:+ s) placeholder]>
         (messages before)
  /\ inputValue after = inputValue before
  /\ isLoading after = isLoading before
  /\ currentSessionId after = currentSessionId before.
Proof.
  intros _ Hfresh Hne Hpre before after placeholder.
  assert (Hbefore : messages before = messages st ++ [userMessage env st; placeholder]).
  { subst before placeholder.
    rewrite (deliver_chunks (uuid_ai env) (messages st) (userMessage env st) pre
               Hfresh Hne Hpre (start env st) (aiMessage env st)); try done.
    simpl. by rewrite <- app_assoc. }
  assert (Hafter : messages after
                   = messages st
                     ++ [userMessage env st;
                         with_content (text_of (chunks pre) +:+ s) (aiMessage env st)]).
  { subst after. simpl. rewrite Hbefore.
    by rewrite update_message_placeholder. }
  split; [|split; [exact Hbefore|split; [exact Hafter|split; [|done]]]].
  - intros i. subst after. simpl. unfold update_message.
    change (map ?f ?l) with (f <$> l). rewrite list_lookup_fmap.
    by destruct (messages before !! i).
  - rewrite Hafter, Hbefore.
    replace (S (length (messages st))) with (length (messages st) + 1) by lia.
    rewrite insert_app_r. reflexivity.
Qed.

Lemma chunk_is_appended_to_the_placeholder_witness :
  let before := deliver "a1" [OnChunk (Str "Hi")] (start greeting (page "hello" false)) in
  let after := onChunk "a1" (Str " there") before in
  rejects (page "hello" false) = false
  /\ (uuid_ai greeting ∉ id <$> messages (page "hello" false))
  /\ uuid_user greeting <> uuid_ai greeting
  /\ map content (messages before) = ["hello"; "Hi"]
  /\ map content (messages after) = ["hello"; "Hi there"].
Proof.
  intros before after.
  assert (H1 : rejects (page "hello" false) = false) by (vm_compute; reflexivity).
  assert (H2 : uuid_ai greeting ∉ id <$> messages (page "hello" false))
    by apply not_elem_of_nil.
  assert (H3 : uuid_user greeting <> uuid_ai greeting) by discriminate.
  assert (H4 : Forall (fun e => is_terminal e = false) [OnChunk (Str "Hi")])
    by (repeat constructor).
  destruct (chunk_is_appended_to_the_placeholder greeting (page "hello" false)
              [OnChunk (Str "Hi")] " there" H1 H2 H3 H4) as (_ & Hb & Ha & _).
  split; [exact H1|]. split; [exact H2|]. split; [exact H3|]. split.
  - exact (f_equal (map content) Hb).
  - exact (f_equal (map content) Ha).
Defined.

End PlaceholderChunks.

Section EndToEnd.
Import Trace ChatPage Turn Wire Protocol.

(** The whole turn against a server that keeps to the protocol: when the
    reads hold whole content lines of plain texts and the [done] line
    follows, the page ends with the earlier messages, the user message and
    the answer, closed, whose content is the deltas one after the other. *)
Theorem protocol_turn_shows_whole_answer env st groups ending :
  rejects st = false ->
  uuid_ai env ∉ id <$> messages st ->
  uuid_user env <> uuid_ai env ->
  fetch env = serve (map read_of groups ++ [done_line +:+ LF]) ending ->
  Forall (Forall (fun t => plain t = true)) groups ->
  messages (state (sendMessage env st))
  = messages st
    ++ [userMessage env st; close_with (concat_texts (concat groups)) (aiMessage env st)]
  /\ isLoading (state (sendMessage env st)) = false
  /\ notices (sendMessage env st) = [].
Proof.
  intros Hacc Hfresh Hne Hfetch Hplain.
  assert (Htrace : ChatService.sendMessageStream (fetch env) (request env st)
                   = map (fun t => OnChunk (Str t)) (concat groups)
                     ++ [OnComplete (concat_texts (concat groups))]).
  { rewrite Hfetch. unfold ChatService.sendMessageStream, serve, ChatService.try_block.
    simpl. by rewrite read_loop_protocol. }
  destruct (sendMessage_messages env st Hacc Hfresh Hne)
    as (pre & e & Heq & Hpre & Hm).
  rewrite Htrace in Heq.
  assert (He : e = Completed /\ text_of (chunks pre) = concat_texts (concat groups)).
  { destruct e; simpl in Heq.
    - rewrite app_nil_r in Heq. subst pre.
      apply Forall_app in Hpre as [_ Hlast]. by inversion Hlast.
    - apply app_inj_tail in Heq as [_ Heq]. by injection Heq as ->.
    - apply app_inj_tail in Heq as [_ Heq]. discriminate. }
  destruct He as [-> Htext]. split.
  - rewrite Hm. simpl. by rewrite Htext.
  - split; [unfold sendMessage; by rewrite Hacc|].
    unfold sendMessage. rewrite Hacc, Htrace. simpl.
    unfold toasts. rewrite flat_map_app. simpl. rewrite app_nil_r.
    clear. induction (concat groups) as [|t l IH]; [done|]. simpl. exact IH.
Qed.

Lemma protocol_turn_shows_whole_answer_witness :
  map content
      (messages (state (sendMessage
                          (Scenario.env_with
                             (serve (map read_of [["Hi"]; [" there"]] ++ [done_line +:+ LF])
                                    EndOfStream))
                          (Scenario.page "hello" false))))
  = ["hello"; "Hi there"].
Proof.
  pose (env := Scenario.env_with
                 (serve (map read_of [["Hi"]; [" there"]] ++ [done_line +:+ LF]) EndOfStream)).
  destruct (protocol_turn_shows_whole_answer env (Scenario.page "hello" false)
              [["Hi"]; [" there"]] EndOfStream) as [Hm _].
  - vm_compute. reflexivity.
  - apply not_elem_of_nil.
  - discriminate.
  - reflexivity.
  - repeat constructor.
  - fold env. rewrite Hm. vm_compute. reflexivity.
Defined.

End EndToEnd.

(** ** Sessions and their history *)

Section Sessions.
Import Trace ChatPage Turn ChatSessions.

(** After [switchSession] has loaded the history of a session, an
    accepted turn goes to that session: the request carries its id and the
    trimmed input, and the list is the loaded history followed by the user
    message and the placeholder, both of that session. *)
Theorem turn_after_switchSession server uuids sid v items env :
  server sid = HistoryLoaded items ->
  rejects (page v) = false ->
  uuid_ai env ∉ id <$> format_history uuids 0 items ->
  uuid_user env <> uuid_ai env ->
  let v1 := (switchSession server uuids sid v).1 in
  issued (sendMessage env (page v1))
  = Some {| message := JSString.trim (inputValue (page v));
            session_id := sid; user_id := "user_001" |}
  /\ exists u ai,
       messages (page (send env v1)) = format_history uuids 0 items ++ [u; ai]
       /\ type u = user /\ content u = JSString.trim (inputValue (page v))
       /\ sessionId u = sid
       /\ type ai = assistant /\ sessionId ai = sid.
Proof.
  intros Hload Hacc Hfresh Hne v1.
  assert (Hv1 : page v1 = setMessages (fun _ => format_history uuids 0 items)
                            (setCurrentSessionId sid (page v))).
  { subst v1. unfold switchSession, loadChatHistory. by rewrite Hload. }
  assert (Hacc1 : rejects (page v1) = false) by (by rewrite Hv1).
  split.
  - unfold sendMessage. rewrite Hacc1. simpl. by rewrite Hv1.
  - destruct (sendMessage_messages env (page v1)) as (pre & ending & _ & _ & Hm);
      [done | by rewrite Hv1 | done |].
    exists (userMessage env (page v1)),
           (placeholder_after pre ending (aiMessage env (page v1))).
    split; [simpl; rewrite Hm; by rewrite Hv1|].
    rewrite Hv1. by destruct ending.
Qed.

End Sessions.

Section MoreSessions.
Import Trace ChatPage Turn ChatSessions SessionScenario.

Lemma turn_after_switchSession_witness :
  history_server "s2" = HistoryLoaded history
  /\ rejects (page (view "hello")) = false
  /\ (uuid_ai Scenario.greeting ∉ id <$> format_history uuid_supply 0 history)
  /\ uuid_user Scenario.greeting <> uuid_ai Scenario.greeting
  /\ issued (sendMessage Scenario.greeting
               (page (switchSession history_server uuid_supply "s2" (view "hello")).1))
     = Some {| message := "hello"; session_id := "s2"; user_id := "user_001" |}.
Proof.
  assert (H1 : history_server "s2" = HistoryLoaded history) by reflexivity.
  assert (H2 : rejects (page (view "hello")) = false) by (vm_compute; reflexivity).
  assert (H3 : uuid_ai Scenario.greeting ∉ id <$> format_history uuid_supply 0 history).
  { vm_compute. intros H. repeat (apply elem_of_cons in H as [H|H]; [discriminate|]).
    by apply elem_of_nil in H. }
  assert (H4 : uuid_user Scenario.greeting <> uuid_ai Scenario.greeting) by discriminate.
  split; [exact H1|]. split; [exact H2|]. split; [exact H3|]. split; [exact H4|].
  destruct (turn_after_switchSession history_server uuid_supply "s2" (view "hello")
              history Scenario.greeting H1 H2 H3 H4) as [Hreq _].
  rewrite Hreq. vm_compute. reflexivity.
Defined.

(** When the history of the session switched to cannot be loaded, the
    page keeps the messages it showed, now under the id of the new session:
    one toast reports the failure, the loading flag goes down, and the next
    turn is sent to the new session and appended to the old messages. *)
Theorem failed_history_keeps_previous_messages server uuids sid v env :
  server sid = HistoryFailed ->
  rejects (page v) = false ->
  let r := switchSession server uuids sid v in
  messages (page r.1) = messages (page v)
  /\ currentSessionId (page r.1) = sid
  /\ isLoadingHistory r.1 = false
  /\ r.2 = [history_failed]
  /\ issued (sendMessage env (page r.1))
     = Some {| message := JSString.trim (inputValue (page v));
               session_id := sid; user_id := "user_001" |}
  /\ length (messages (page (send env r.1))) = length (messages (page v)) + 2.
Proof.
  intros Hfail Hacc r.
  assert (Hr : r = ({| page := setCurrentSessionId sid (page v);
                       showHistory := showHistory v; isLoadingHistory := false |},
                    [history_failed])).
  { subst r. unfold switchSession, loadChatHistory. by rewrite Hfail. }
  rewrite Hr. simpl. repeat split.
  - unfold sendMessage.
    replace (rejects (setCurrentSessionId sid (page v))) with false by (by rewrite <- Hacc).
    reflexivity.
  - unfold sendMessage.
    replace (rejects (setCurrentSessionId sid (page v))) with false by (by rewrite <- Hacc).
    simpl. rewrite deliver_length. simpl. rewrite !length_app. simpl. lia.
Qed.

Lemma failed_history_keeps_previous_messages_witness :
  history_server "s3" = HistoryFailed
  /\ rejects (page (view "hello")) = false
  /\ map content (messages (page (switchSession history_server uuid_supply "s3"
                                    (view "hello")).1)) = ["earlier"]
  /\ issued (sendMessage Scenario.greeting
               (page (switchSession history_server uuid_supply "s3" (view "hello")).1))
     = Some {| message := "hello"; session_id := "s3"; user_id := "user_001" |}.
Proof.
  assert (H1 : history_server "s3" = HistoryFailed) by reflexivity.
  assert (H2 : rejects (page (view "hello")) = false) by (vm_compute; reflexivity).
  destruct (failed_history_keeps_previous_messages history_server uuid_supply "s3"
              (view "hello") Scenario.greeting H1 H2) as (Hm & _ & _ & _ & Hreq & _).
  split; [exact H1|]. split; [exact H2|]. split.
  - rewrite Hm. reflexivity.
  - rewrite Hreq. vm_compute. reflexivity.
Defined.

(** After [createNewSession] an accepted turn leaves exactly two
    messages, the user message and the placeholder, both of the new session,
    and its request carries the new session id; the side bar is closed. *)
Theorem turn_after_createNewSession newSessionId v env :
  rejects (page v) = false ->
  uuid_user env <> uuid_ai env ->
  let v1 := createNewSession newSessionId v in
  showHistory v1 = false
  /\ issued (sendMessage env (page v1))
     = Some {| message := JSString.trim (inputValue (page v));
               session_id := newSessionId; user_id := "user_001" |}
  /\ exists u ai,
       messages (page (send env v1)) = [u; ai]
       /\ type u = user /\ sessionId u = newSessionId
       /\ type ai = assistant /\ sessionId ai = newSessionId.
Proof.
  intros Hacc Hne v1.
  assert (Hacc1 : rejects (page v1) = false) by exact Hacc.
  split; [done|]. split.
  - unfold sendMessage. rewrite Hacc1. reflexivity.
  - destruct (sendMessage_messages env (page v1)) as (pre & ending & _ & _ & Hm);
      [done | apply not_elem_of_nil | done |].
    exists (userMessage env (page v1)),
           (placeholder_after pre ending (aiMessage env (page v1))).
    split; [|by destruct ending].
    change (messages (page (send env v1)))
      with (messages (state (sendMessage env (page v1)))).
    by rewrite Hm.
Qed.

Lemma turn_after_createNewSession_witness :
  rejects (page (view "hello")) = false
  /\ uuid_user Scenario.greeting <> uuid_ai Scenario.greeting
  /\ issued (sendMessage Scenario.greeting (page (createNewSession "s9" (view "hello"))))
     = Some {| message := "hello"; session_id := "s9"; user_id := "user_001" |}.
Proof.
  assert (H1 : rejects (page (view "hello")) = false) by (vm_compute; reflexivity).
  assert (H2 : uuid_user Scenario.greeting <> uuid_ai Scenario.greeting) by discriminate.
  destruct (turn_after_createNewSession "s9" (view "hello") Scenario.greeting H1 H2)
    as (_ & Hreq & _).
  split; [exact H1|]. split; [exact H2|].
  rewrite Hreq. vm_compute. reflexivity.
Defined.

(** A history that loads replaces the list by one message for every
    item, in the order of the items, with the content, the type, the time and
    the session of the item; an item that has a non-empty id keeps it. *)
Theorem loaded_history_mirrors_items server uuids sid v items :
  server sid = HistoryLoaded items ->
  let msgs := messages (page (loadChatHistory server uuids sid v).1) in
  map content msgs = map item_content items
  /\ map type msgs = map message_type items
  /\ map timestamp msgs = map item_timestamp items
  /\ map sessionId msgs = map item_session_id items
  /\ (forall i item c rest,
         items !! i = Some item -> item_id item = Some (String c rest) ->
         id <$> msgs !! i = Some (String c rest))
  /\ isLoadingHistory (loadChatHistory server uuids sid v).1 = false.
Proof.
  intros Hload. unfold loadChatHistory. rewrite Hload. simpl.
  generalize 0 as k.
  assert (H : forall k,
             map content (format_history uuids k items) = map item_content items
             /\ map type (format_history uuids k items) = map message_type items
             /\ map timestamp (format_history uuids k items) = map item_timestamp items
             /\ map sessionId (format_history uuids k items) = map item_session_id items
             /\ forall i item c rest,
                  items !! i = Some item -> item_id item = Some (String c rest) ->
                  id <$> format_history uuids k items !! i = Some (String c rest)).
  { clear Hload. induction items as [|it items IH]; intros k; [by repeat split|].
    simpl. destruct (item_id it) as [[|c0 i0]|] eqn:Hid; simpl.
    - destruct (IH (S k)) as (-> & -> & -> & -> & Hids). repeat split.
      intros [|i] item c rest Hi Hitem; simpl in *; [|by eapply Hids].
      injection Hi as <-. congruence.
    - destruct (IH k) as (-> & -> & -> & -> & Hids). repeat split.
      intros [|i] item c rest Hi Hitem; simpl in *; [|by eapply Hids].
      injection Hi as <-. congruence.
    - destruct (IH (S k)) as (-> & -> & -> & -> & Hids). repeat split.
      intros [|i] item c rest Hi Hitem; simpl in *; [|by eapply Hids].
      injection Hi as <-. congruence. }
  intros k. destruct (H k) as (? & ? & ? & ? & ?). by repeat split.
Qed.

Lemma loaded_history_mirrors_items_witness :
  history_server "s2" = HistoryLoaded history
  /\ map content (messages (page (loadChatHistory history_server uuid_supply "s2"
                                    (view "hello")).1))
     = ["where is my order"; "it ships today"]
  /\ map id (messages (page (loadChatHistory history_server uuid_supply "s2"
                               (view "hello")).1))
     = ["m1"; "uuid-0"].
Proof.
  assert (H1 : history_server "s2" = HistoryLoaded history) by reflexivity.
  destruct (loaded_history_mirrors_items history_server uuid_supply "s2" (view "hello")
              history H1) as (Hc & _).
  split; [exact H1|]. split; [rewrite Hc; reflexivity | vm_compute; reflexivity].
Defined.

End MoreSessions.

(** ** The token of the user *)

Section Token.
Import AuthToken.

(** The token round trip.  A token stored by [setAuthToken] is the one
    [getAuthToken] returns and, when it is not empty, the one every request
    carries as [Authorization: Bearer <token>], whatever the request had
    there; after [clearAuthToken] there is no token and a request keeps the
    [Authorization] it came with.  An empty token is stored and returned like
    any other, as the empty string, but it is not sent: the request keeps the
    [Authorization] it came with.  Every request gets its [X-Request-ID], the
    other headers stay, and the other keys of the storage are never
    touched. *)
Theorem auth_token_round_trip token requestId
    (localStorage headers : gmap string string) :
  token <> EmptyString ->
  getAuthToken (setAuthToken token localStorage) = Some token
  /\ requestInterceptor requestId (setAuthToken token localStorage) headers !! "Authorization"
     = Some ("Bearer " +:+ token)
  /\ getAuthToken (clearAuthToken (setAuthToken token localStorage)) = None
  /\ requestInterceptor requestId (clearAuthToken (setAuthToken token localStorage)) headers
     !! "Authorization" = headers !! "Authorization"
  /\ getAuthToken (setAuthToken EmptyString localStorage) = Some EmptyString
  /\ requestInterceptor requestId (setAuthToken EmptyString localStorage) headers
     !! "Authorization" = headers !! "Authorization"
  /\ (forall storage, requestInterceptor requestId storage headers !! "X-Request-ID"
                      = Some requestId)
  /\ (forall storage name, name <> "Authorization" -> name <> "X-Request-ID" ->
        requestInterceptor requestId storage headers !! name = headers !! name)
  /\ (forall key, key <> "auth_token" ->
        setAuthToken token localStorage !! key = localStorage !! key
        /\ clearAuthToken localStorage !! key = localStorage !! key).
Proof.
  intros Hne. unfold getAuthToken, setAuthToken, clearAuthToken, requestInterceptor.
  repeat split.
  - by rewrite lookup_insert_eq.
  - rewrite lookup_insert_eq. destruct token; [done|]. simpl.
    rewrite lookup_insert_ne by done. by rewrite lookup_insert_eq.
  - by rewrite lookup_delete_eq.
  - rewrite lookup_delete_eq. by rewrite lookup_insert_ne.
  - by rewrite lookup_insert_eq.
  - rewrite lookup_insert_eq. simpl. by rewrite lookup_insert_ne.
  - intros storage. by rewrite lookup_insert_eq.
  - intros storage name H1 H2. rewrite lookup_insert_ne by done.
    destruct (storage !! "auth_token") as [t|]; [|done].
    destruct (JSString.is_empty t); [done|]. by rewrite lookup_insert_ne.
  - by rewrite lookup_insert_ne.
  - by rewrite lookup_delete_ne.
Qed.

Lemma auth_token_round_trip_witness :
  "abc" <> EmptyString
  /\ requestInterceptor "req_1" (setAuthToken "abc" ∅) {["Authorization" := "Basic x"]}
     !! "Authorization" = Some "Bearer abc"
  /\ getAuthToken (setAuthToken EmptyString ∅) = Some EmptyString
  /\ requestInterceptor "req_1" (setAuthToken EmptyString ∅) {["Authorization" := "Basic x"]}
     !! "Authorization" = Some "Basic x".
Proof.
  assert (H : "abc" <> EmptyString) by discriminate.
  destruct (auth_token_round_trip "abc" "req_1" ∅ {["Authorization" := "Basic x"]} H)
    as (_ & H2 & _ & _ & H5 & H6 & _).
  split; [exact H|]. split; [exact H2|]. split; [exact H5|].
  rewrite H6. reflexivity.
Defined.

End Token.

(** ** The list of sessions *)

Section SessionList.
Import ChatHistory.

Lemma truncateText_length (text : list N) (maxLength : nat) :
  length (truncateText text maxLength)
  = (if length text <=? maxLength then length text else maxLength + 3).
Proof.
  unfold truncateText.
  destruct (Nat.leb_spec (length text) maxLength) as [Hle|Hgt]; [done|].
  rewrite length_app, length_take. simpl. lia.
Qed.

(** [truncateText] returns a short text as it is and cuts a longer one to
    its first [maxLength] code units followed by the three full stops of
    ['...'] (code unit 46), so that a text only one or two units over the
    limit comes out longer than it went in; the first [maxLength] units are
    always those of the text, what follows them is nothing for a short text
    and the three full stops for a long one, and truncating twice is
    truncating once. *)
Theorem truncateText_length_prefix_idempotent (text : list N) (maxLength : nat) :
  length (truncateText text maxLength)
  = (if length text <=? maxLength then length text else maxLength + 3)
  /\ take maxLength (truncateText text maxLength) = take maxLength text
  /\ drop maxLength (truncateText text maxLength)
     = (if length text <=? maxLength then [] else [46; 46; 46]%N)
  /\ truncateText (truncateText text maxLength) maxLength = truncateText text maxLength.
Proof.
  split; [apply truncateText_length|].
  unfold truncateText.
  destruct (Nat.leb_spec (length text) maxLength) as [Hle|Hgt].
  - split; [done|]. split; [by apply drop_ge|].
    by rewrite (proj2 (Nat.leb_le _ _) Hle).
  - assert (Hlen : length (take maxLength text ++ ellipsis) = maxLength + 3).
    { rewrite length_app, length_take. simpl. lia. }
    split; [|split].
    + rewrite take_app_le by (rewrite length_take; lia).
      by rewrite take_take, Nat.min_id.
    + rewrite drop_app_length'; [done|]. rewrite length_take. lia.
    + rewrite Hlen.
      destruct (Nat.leb_spec (maxLength + 3) maxLength) as [?|_]; [lia|].
      rewrite take_app_le by (rewrite length_take; lia).
      by rewrite take_take, Nat.min_id.
Qed.

Lemma truncateText_not_empty (text : list N) (maxLength : nat) :
  text <> [] -> truncateText text maxLength <> [].
Proof.
  intros Hne H. apply (f_equal length) in H. rewrite truncateText_length in H.
  destruct (length text <=? maxLength); simpl in H; [|lia].
  by destruct text.
Qed.

(** The title [getSessionTitle] gives a session is never empty; for a
    session without a title of its own it has at most 23 code units. *)
Theorem getSessionTitle_not_empty_and_bounded (session : ChatSession) :
  getSessionTitle session <> []
  /\ (truthy (title session) = false -> length (getSessionTitle session) <= 23).
Proof.
  assert (Hgen : session_word ++ take 8 (id session) <> []
                 /\ length (session_word ++ take 8 (id session)) <= 23).
  { split; [done|]. rewrite length_app, length_take.
    change (length session_word) with 3. lia. }
  assert (Hlast : forall v m, truncateText (v :: m) 20 <> []
                              /\ length (truncateText (v :: m) 20) <= 23).
  { intros v m. split; [by apply truncateText_not_empty|].
    rewrite truncateText_length.
    destruct (Nat.leb_spec (length (v :: m)) 20); lia. }
  unfold getSessionTitle, truthy.
  destruct (title session) as [[|u t]|].
  - destruct (lastMessage session) as [[|v m]|]; try (split; [apply Hgen | intros _; apply Hgen]).
    split; [apply Hlast | intros _; apply Hlast].
  - split; [done | discriminate].
  - destruct (lastMessage session) as [[|v m]|]; try (split; [apply Hgen | intros _; apply Hgen]).
    split; [apply Hlast | intros _; apply Hlast].
Qed.

Lemma getSessionTitle_not_empty_and_bounded_witness :
  let s := {| id := [97; 98; 99; 100; 101; 102; 103; 104; 105; 106]%N; title := Some [];
              lastMessage := None; messageCount := None; updatedAt := 0 |} in
  truthy (title s) = false
  /\ getSessionTitle s = [20250; 35805; 32; 97; 98; 99; 100; 101; 102; 103; 104]%N
  /\ length (getSessionTitle s) <= 23.
Proof.
  intros s. split; [reflexivity|]. split; [reflexivity|].
  apply (proj2 (getSessionTitle_not_empty_and_bounded s)). reflexivity.
Defined.

End SessionList.

Section Times.
Import ChatHistory.

(** [formatTime] by the time elapsed: "just now" below a minute, a time
    in the future included; the whole minutes, 1 to 59, below an hour; the
    whole hours, 1 to 23, below a day; the whole days, 1 to 6, below a week;
    the date of the locale from a week on. *)
Theorem formatTime_ranges (toLocaleDateString : Z -> string) (now timestamp : Z) :
  let diff := (now - timestamp)%Z in
  ((diff < 60000)%Z -> formatTime toLocaleDateString now timestamp = "刚刚")
  /\ ((60000 <= diff < 3600000)%Z ->
      formatTime toLocaleDateString now timestamp
      = JSString.of_N (Z.to_N (diff / 60000)) +:+ "分钟前"
      /\ (1 <= diff / 60000 <= 59)%Z)
  /\ ((3600000 <= diff < 86400000)%Z ->
      formatTime toLocaleDateString now timestamp
      = JSString.of_N (Z.to_N (diff / 3600000)) +:+ "小时前"
      /\ (1 <= diff / 3600000 <= 23)%Z)
  /\ ((86400000 <= diff < 604800000)%Z ->
      formatTime toLocaleDateString now timestamp
      = JSString.of_N (Z.to_N (diff / 86400000)) +:+ "天前"
      /\ (1 <= diff / 86400000 <= 6)%Z)
  /\ ((604800000 <= diff)%Z ->
      formatTime toLocaleDateString now timestamp = toLocaleDateString timestamp).
Proof.
  intros diff. unfold formatTime, time_label. fold diff.
  pose proof (Z.div_mod diff 60000 ltac:(lia)) as Hm.
  pose proof (Z.mod_pos_bound diff 60000 ltac:(lia)) as Hm'.
  pose proof (Z.div_mod diff 3600000 ltac:(lia)) as Hh.
  pose proof (Z.mod_pos_bound diff 3600000 ltac:(lia)) as Hh'.
  pose proof (Z.div_mod diff 86400000 ltac:(lia)) as Hd.
  pose proof (Z.mod_pos_bound diff 86400000 ltac:(lia)) as Hd'.
  destruct (Z.ltb_spec (diff / 60000) 1);
    [repeat split; intros; try done; lia|].
  destruct (Z.ltb_spec (diff / 60000) 60);
    [repeat split; intros; try done; lia|].
  destruct (Z.ltb_spec (diff / 3600000) 24);
    [repeat split; intros; try done; lia|].
  destruct (Z.ltb_spec (diff / 86400000) 7);
    [repeat split; intros; try done; lia|].
  repeat split; intros; try done; lia.
Qed.

Lemma formatTime_ranges_witness :
  formatTime (fun _ => "2024年1月1日") 1000 5000 = "刚刚"
  /\ formatTime (fun _ => "2024年1月1日") 7200000 0 = "2小时前"
  /\ formatTime (fun _ => "2024年1月1日") 604800000 0 = "2024年1月1日".
Proof.
  destruct (formatTime_ranges (fun _ => "2024年1月1日") 1000 5000) as (H1 & _).
  destruct (formatTime_ranges (fun _ => "2024年1月1日") 7200000 0) as (_ & _ & H3 & _).
  destruct (formatTime_ranges (fun _ => "2024年1月1日") 604800000 0) as (_ & _ & _ & _ & H5).
  split; [apply H1; lia|]. split; [|apply H5; lia].
  destruct H3 as [-> _]; [lia|]. vm_compute. reflexivity.
Defined.

End Times.

(** ** The content of a message *)

Section MessageContent.
Import JSString MessageView.






End MessageContent.

(** ** Instances *)

Section Witnesses.
Import Trace ChatService ChatPage Wire Scenario.

Lemma transport_failure_is_reported_witness :
  ends_with_terminal
    (sendMessageStream (serve [content_line "Hi" +:+ LF] (ReadRejects "network error")) hello)
  = true.
Proof.
  apply transport_failure_is_reported.
  intros r b Hf _ Hb. injection Hf as <-. injection Hb as <-. discriminate.
Defined.

Lemma complete_closes_placeholder_witness :
  last (messages (state (sendMessage greeting (page "hello" false))))
  = Some (close_with "Hi there" (aiMessage greeting (page "hello" false))).
Proof.
  apply complete_closes_placeholder.
  - vm_compute. reflexivity.
  - vm_compute. right. right. left. reflexivity.
Defined.


End Witnesses.
